(** * ADC_RTApp_MT3620_BareMetal: register access, interrupt control,
      exception vector table and the sample-and-report loop.

    A shallow embedding of [mt3620-baremetal.h] and of the application's
    [main.c].  Fixed-width C integers are [Z] with the wrap-around written
    out; memory is a finite map from byte addresses to byte values; code that
    touches the machine runs in a small state-and-error monad. *)

From Stdlib Require Import ZArith Lia List String Ascii Bool.
From stdpp Require Import base option gmap list.

Local Open Scope Z_scope.

(* ===================================================================== *)
(** ** Fixed-width integers *)
(* ===================================================================== *)

(** Conversion to [uint8_t] and to [uint32_t] ([uintptr_t] and [size_t] are
    32 bits wide on the Cortex-M4 core). *)
Definition u8 (z : Z) : Z := z mod 2 ^ 8.
Definition u32 (z : Z) : Z := z mod 2 ^ 32.

Definition is_u8 (z : Z) : Prop := 0 <= z < 2 ^ 8.
Definition is_u32 (z : Z) : Prop := 0 <= z < 2 ^ 32.

(** [~x] on a [uint32_t]. *)
Definition not32 (z : Z) : Z := u32 (Z.lnot z).

(* ===================================================================== *)
(** ** A state-and-error monad *)
(* ===================================================================== *)

(** A computation over a state [S] either yields a value and a new state, or
    has no defined behaviour ([None]). *)
Definition St (S A : Type) : Type := S -> option (A * S).

Definition st_ret {S A : Type} (x : A) : St S A := fun s => Some (x, s).

Definition st_bind {S A B : Type} (c : St S A) (k : A -> St S B) : St S B :=
  fun s => match c s with
           | Some (x, s') => k x s'
           | None => None
           end.

Definition st_undefined {S A : Type} : St S A := fun _ => None.

Declare Scope st_scope.
Delimit Scope st_scope with st.
Notation "x ← y ; z" := (st_bind y (fun x => z))
  (at level 20, y at level 100, z at level 200, only parsing) : st_scope.
Notation "x ;; z" := (st_bind x (fun _ => z))
  (at level 100, z at level 200, only parsing, right associativity) : st_scope.

(** State reached by a computation, when it is defined. *)
Definition exec {S A : Type} (c : St S A) (s : S) : option S :=
  match c s with Some (_, s') => Some s' | None => None end.

(** Value returned by a computation, when it is defined. *)
Definition eval {S A : Type} (c : St S A) (s : S) : option A :=
  match c s with Some (x, _) => Some x | None => None end.

(* ===================================================================== *)
(** ** The machine: byte-addressed memory and the BASEPRI register *)
(* ===================================================================== *)

Record machine : Type := Machine {
  mem : gmap Z Z;      (* byte address |-> byte value; absent reads as 0 *)
  basepri : Z          (* the BASEPRI special register *)
}.

Definition load8 (m : gmap Z Z) (a : Z) : Z := u8 (default 0 (m !! a)).
Definition store8 (m : gmap Z Z) (a v : Z) : gmap Z Z := <[a := u8 v]> m.

(** 32-bit accesses are little-endian. *)
Definition load32 (m : gmap Z Z) (a : Z) : Z :=
  Z.lor (load8 m a)
    (Z.lor (Z.shiftl (load8 m (a + 1)) 8)
       (Z.lor (Z.shiftl (load8 m (a + 2)) 16)
              (Z.shiftl (load8 m (a + 3)) 24))).

Definition store32 (m : gmap Z Z) (a v : Z) : gmap Z Z :=
  store8 (store8 (store8 (store8 m a v)
                    (a + 1) (Z.shiftr v 8))
            (a + 2) (Z.shiftr v 16))
    (a + 3) (Z.shiftr v 24).

Definition with_mem (s : machine) (m : gmap Z Z) : machine :=
  {| mem := m; basepri := basepri s |}.
Definition with_basepri (s : machine) (b : Z) : machine :=
  {| mem := mem s; basepri := b |}.

(** [mrs %0, BASEPRI] and [msr BASEPRI, %0], through a 32-bit register. *)
Definition mrs_BASEPRI : St machine Z :=
  fun s => Some (u32 (basepri s), s).
Definition msr_BASEPRI (v : Z) : St machine unit :=
  fun s => Some (tt, with_basepri s (u32 v)).

(** [a << n] on [unsigned int]: undefined unless [0 <= n < 32]. *)
Definition shl32 {S : Type} (a n : Z) : St S Z :=
  if (0 <=? n) && (n <? 32) then st_ret (u32 (Z.shiftl a n))
  else st_undefined.

(* ===================================================================== *)
(** ** mt3620-baremetal.h *)
(* ===================================================================== *)

Local Open Scope st_scope.

Definition SCB_BASE : Z := 0xE000ED00.
Definition NVIC_ISER_BASE : Z := 0xE000E100.
Definition NVIC_IPR_BASE : Z := 0xE000E400.

Definition IRQ_PRIORITY_BITS : Z := 3.

(** The target address [baseAddr + offset], computed in [uintptr_t]. *)
Definition reg_addr (baseAddr offset : Z) : Z := u32 (baseAddr + offset).

(** The stores keep the low 8, respectively 32, bits of [value]. *)
Definition WriteReg8 (baseAddr offset value : Z) : St machine unit :=
  fun s => Some (tt, with_mem s (store8 (mem s) (reg_addr baseAddr offset) value)).

Definition WriteReg32 (baseAddr offset value : Z) : St machine unit :=
  fun s => Some (tt, with_mem s (store32 (mem s) (reg_addr baseAddr offset) value)).

Definition ReadReg32 (baseAddr offset : Z) : St machine Z :=
  fun s => Some (load32 (mem s) (reg_addr baseAddr offset), s).

Definition ClearReg32 (baseAddr offset clearBits : Z) : St machine unit :=
  value ← ReadReg32 baseAddr offset;
  let value := Z.land value (not32 clearBits) in
  WriteReg32 baseAddr offset value.

Definition SetReg32 (baseAddr offset setBits : Z) : St machine unit :=
  value ← ReadReg32 baseAddr offset;
  let value := Z.lor value setBits in
  WriteReg32 baseAddr offset value.

Definition BlockIrqs : St machine Z :=
  let newBasePri := 1 in
  prevBasePri ← mrs_BASEPRI;
  msr_BASEPRI newBasePri;;
  st_ret prevBasePri.

Definition RestoreIrqs (prevBasePri : Z) : St machine unit :=
  msr_BASEPRI prevBasePri.

(** [pri << 5] is computed in [int], where a [uint8_t] cannot overflow; the
    result is converted to the [uint8_t] parameter of [WriteReg8]. *)
Definition SetNvicPriority (irqNum pri : Z) : St machine unit :=
  WriteReg8 NVIC_IPR_BASE irqNum (Z.shiftl pri (8 - IRQ_PRIORITY_BITS)).

(** [irqNum] is an [int]: [/] and [%] truncate towards zero, and the offset
    is converted to [size_t] when the address is formed. *)
Definition EnableNvicInterrupt (irqNum : Z) : St machine unit :=
  let offset := 4 * (Z.quot irqNum 32) in
  mask ← shl32 1 (Z.rem irqNum 32);
  SetReg32 NVIC_ISER_BASE offset mask.

(** [POW2_CEIL(_x)]: the macro's chain of 64 conditionals, row by row.  The
    comparisons are made in [unsigned long long]; the constants keep their
    values (a [U] constant too wide for [unsigned int] takes the next wider
    unsigned type). *)
Definition POW2_CEIL (_x : Z) : Z :=
  if _x >? 0x8000000000000000 then 0 else
  if _x >? 0x4000000000000000 then 0x8000000000000000 else
  if _x >? 0x2000000000000000 then 0x4000000000000000 else
  if _x >? 0x1000000000000000 then 0x2000000000000000 else
  if _x >? 0x0800000000000000 then 0x1000000000000000 else
  if _x >? 0x0400000000000000 then 0x0800000000000000 else
  if _x >? 0x0200000000000000 then 0x0400000000000000 else
  if _x >? 0x0100000000000000 then 0x0200000000000000 else
  if _x >? 0x0080000000000000 then 0x0100000000000000 else
  if _x >? 0x0040000000000000 then 0x0080000000000000 else
  if _x >? 0x0020000000000000 then 0x0040000000000000 else
  if _x >? 0x0010000000000000 then 0x0020000000000000 else
  if _x >? 0x0008000000000000 then 0x0010000000000000 else
  if _x >? 0x0004000000000000 then 0x0008000000000000 else
  if _x >? 0x0002000000000000 then 0x0004000000000000 else
  if _x >? 0x0001000000000000 then 0x0002000000000000 else
  if _x >? 0x0000800000000000 then 0x0001000000000000 else
  if _x >? 0x0000400000000000 then 0x0000800000000000 else
  if _x >? 0x0000200000000000 then 0x0000400000000000 else
  if _x >? 0x0000100000000000 then 0x0000200000000000 else
  if _x >? 0x0000080000000000 then 0x0000100000000000 else
  if _x >? 0x0000040000000000 then 0x0000080000000000 else
  if _x >? 0x0000020000000000 then 0x0000040000000000 else
  if _x >? 0x0000010000000000 then 0x0000020000000000 else
  if _x >? 0x0000008000000000 then 0x0000010000000000 else
  if _x >? 0x0000004000000000 then 0x0000008000000000 else
  if _x >? 0x0000002000000000 then 0x0000004000000000 else
  if _x >? 0x0000001000000000 then 0x0000002000000000 else
  if _x >? 0x0000000800000000 then 0x0000001000000000 else
  if _x >? 0x0000000400000000 then 0x0000000800000000 else
  if _x >? 0x0000000200000000 then 0x0000000400000000 else
  if _x >? 0x0000000100000000 then 0x0000000200000000 else
  if _x >? 0x0000000080000000 then 0x0000000100000000 else
  if _x >? 0x0000000040000000 then 0x80000000 else
  if _x >? 0x0000000020000000 then 0x40000000 else
  if _x >? 0x0000000010000000 then 0x20000000 else
  if _x >? 0x0000000008000000 then 0x10000000 else
  if _x >? 0x0000000004000000 then 0x08000000 else
  if _x >? 0x0000000002000000 then 0x04000000 else
  if _x >? 0x0000000001000000 then 0x02000000 else
  if _x >? 0x0000000000800000 then 0x01000000 else
  if _x >? 0x0000000000400000 then 0x00800000 else
  if _x >? 0x0000000000200000 then 0x00400000 else
  if _x >? 0x0000000000100000 then 0x00200000 else
  if _x >? 0x0000000000080000 then 0x00100000 else
  if _x >? 0x0000000000040000 then 0x00080000 else
  if _x >? 0x0000000000020000 then 0x00040000 else
  if _x >? 0x0000000000010000 then 0x00020000 else
  if _x >? 0x0000000000008000 then 0x00010000 else
  if _x >? 0x0000000000004000 then 0x8000 else
  if _x >? 0x0000000000002000 then 0x4000 else
  if _x >? 0x0000000000001000 then 0x2000 else
  if _x >? 0x0000000000000800 then 0x1000 else
  if _x >? 0x0000000000000400 then 0x0800 else
  if _x >? 0x0000000000000200 then 0x0400 else
  if _x >? 0x0000000000000100 then 0x0200 else
  if _x >? 0x0000000000000080 then 0x0100 else
  if _x >? 0x0000000000000040 then 0x80 else
  if _x >? 0x0000000000000020 then 0x40 else
  if _x >? 0x0000000000000010 then 0x20 else
  if _x >? 0x0000000000000008 then 0x10 else
  if _x >? 0x0000000000000004 then 0x08 else
  if _x >? 0x0000000000000002 then 0x04 else
  if _x >? 0x0000000000000001 then 0x02 else
  0x01.

(** What [POW2_CEIL] is meant to return: the least power of two that is at
    least [x]. *)
Definition is_pow2 (p : Z) : Prop := exists k, 0 <= k /\ p = 2 ^ k.

Definition least_pow2_ge (x p : Z) : Prop :=
  is_pow2 p /\ x <= p /\ forall q, is_pow2 q -> x <= q -> p <= q.

(* ===================================================================== *)
(** ** main.c: the exception vector table *)
(* ===================================================================== *)

(** [LOCAL_C_ASSERT(e)] declares [typedef char __C_ASSERT__[(e)?1:-1]]: this
    is the length of that array type.  The translation unit is accepted only
    when the length is positive. *)
Definition LOCAL_C_ASSERT (e : bool) : Z := if e then 1 else -1.
Definition array_type_accepted (len : Z) : bool := 0 <? len.

(** The three symbols whose addresses fill the table. [StackTop] is declared
    [extern uint32_t], the other two are functions. *)
Inductive symbol : Type := StackTop | DefaultExceptionHandler | RTCoreMain.
Inductive symbol_kind : Type := DataObject | CodeFunction.

Definition kind_of (s : symbol) : symbol_kind :=
  match s with
  | StackTop => DataObject
  | DefaultExceptionHandler => CodeFunction
  | RTCoreMain => CodeFunction
  end.

Definition INTERRUPT_COUNT : nat := 100.
Definition EXCEPTION_COUNT : nat := 16 + INTERRUPT_COUNT.
Definition INT_TO_EXC (i_ : nat) : nat := 16 + i_.

(** [sizeof(uintptr_t)] and its natural alignment on the 32-bit target. *)
Definition sizeof_uintptr_t : Z := 4.
Definition alignof_uintptr_t : Z := 4.

Definition EXCEPTION_TABLE_EXPECTED_SIZE : Z :=
  Z.of_nat EXCEPTION_COUNT * sizeof_uintptr_t.

Definition EXCEPTION_TABLE_ALIGNMENT : Z :=
  if POW2_CEIL EXCEPTION_TABLE_EXPECTED_SIZE <? 128 then 128
  else POW2_CEIL EXCEPTION_TABLE_EXPECTED_SIZE.

(** Layout of [struct { uintptr_t v[EXCEPTION_COUNT]; }
    __attribute__((aligned(EXCEPTION_TABLE_ALIGNMENT)))]: the attribute raises
    the alignment of the type, the member [v] sits at offset 0, and the size
    of a type is a multiple of its alignment (trailing padding). *)
Definition align_up (n a : Z) : Z := (n + a - 1) / a * a.

Definition sizeof_v : Z := Z.of_nat EXCEPTION_COUNT * sizeof_uintptr_t.

Definition alignof_EXCEPTION_VECTOR_TABLE : Z :=
  Z.max alignof_uintptr_t EXCEPTION_TABLE_ALIGNMENT.

Definition sizeof_EXCEPTION_VECTOR_TABLE : Z :=
  align_up sizeof_v alignof_EXCEPTION_VECTOR_TABLE.

(** The assertion of line 35, as the two sides it compares and as the array
    length it declares. *)
Definition table_assert_sides : Z * Z :=
  (sizeof_EXCEPTION_VECTOR_TABLE, EXCEPTION_TABLE_ALIGNMENT).

Definition table_assert : Z :=
  LOCAL_C_ASSERT (table_assert_sides.1 =? table_assert_sides.2).

(** Designated array initialisers: [.v[i] = x] and the range form
    [.v[lo ... hi] = x].  Elements without an initialiser are zero; a later
    initialiser overrides an earlier one.  (A designator past the end of the
    array is rejected by the compiler; every designator below is in range,
    where list insertion and the C initialiser agree.) *)
Inductive designator : Type :=
| At (i : nat)
| Range (lo hi : nat).

Definition designated (arr : list Z) (d : designator * Z) : list Z :=
  match d with
  | (At i, x) => <[i := x]> arr
  | (Range lo hi, x) =>
      fold_left (fun a i => <[i := x]> a) (seq lo (S hi - lo)) arr
  end.

Definition array_init (n : nat) (inits : list (designator * Z)) : list Z :=
  fold_left designated inits (replicate n 0).

(** [ExceptionVectorTable.v], given the addresses the linker assigns. *)
Definition ExceptionVectorTable (addr_of : symbol -> Z) : list Z :=
  array_init EXCEPTION_COUNT
    [ (At 0, addr_of StackTop);                  (* Main Stack Pointer (MSP) *)
      (At 1, addr_of RTCoreMain);                (* Reset *)
      (At 2, addr_of DefaultExceptionHandler);   (* NMI *)
      (At 3, addr_of DefaultExceptionHandler);   (* HardFault *)
      (At 4, addr_of DefaultExceptionHandler);   (* MPU Fault *)
      (At 5, addr_of DefaultExceptionHandler);   (* Bus Fault *)
      (At 6, addr_of DefaultExceptionHandler);   (* Usage Fault *)
      (At 11, addr_of DefaultExceptionHandler);  (* SVCall *)
      (At 12, addr_of DefaultExceptionHandler);  (* Debug monitor *)
      (At 14, addr_of DefaultExceptionHandler);  (* PendSV *)
      (At 15, addr_of DefaultExceptionHandler);  (* SysTick *)
      (Range (INT_TO_EXC 0) (INT_TO_EXC (INTERRUPT_COUNT - 1)),
       addr_of DefaultExceptionHandler) ].

(* ===================================================================== *)
(** ** main.c: the sample-and-report loop *)
(* ===================================================================== *)

(** What the loop can be observed to do: the bytes sent on the serial line
    and the time spent in the timer's busy-wait. *)
Record console : Type := Console {
  uart_tx : string;
  waited_us : Z
}.

Definition CRLF : string := String "013" (String "010" EmptyString).

(** Modelled from the spec: the decimal rendering behind the serial
    collaborator's integer writers (mt3620-uart-poll).  Digits come most
    significant first: the last one is [n % 10], the ones before it are the
    digits of [n / 10]; an [int] has at most ten. *)
Definition digit_char (d : Z) : ascii := ascii_of_nat (48 + Z.to_nat d).

Fixpoint digits_of (fuel : nat) (n : Z) (acc : string) : string :=
  match fuel with
  | O => acc
  | S fuel' =>
      let acc' := String (digit_char (n mod 10)) acc in
      if n / 10 =? 0 then acc' else digits_of fuel' (n / 10) acc'
  end.

Definition decimal (n : Z) : string :=
  if n <? 0 then String "-" (digits_of 10 (- n) EmptyString)
  else digits_of 10 n EmptyString.

(** Modelled from the spec: the zero padding of [write_integer_width], on
    the left, up to [width] characters. *)
Fixpoint zeros (k : nat) : string :=
  match k with
  | O => EmptyString
  | S k' => String "0" (zeros k')
  end.

Definition zero_pad (width : nat) (digits : string) : string :=
  (zeros (width - String.length digits) ++ digits)%string.

(** Modelled from the spec: [Uart_WriteStringPoll] of mt3620-uart-poll, the
    serial collaborator's [write_string(s)], which returns once all bytes of
    [s] are transmitted. *)
Definition Uart_WriteStringPoll (s : string) : St console unit :=
  fun c => Some (tt, {| uart_tx := (uart_tx c ++ s)%string;
                        waited_us := waited_us c |}).

(** Modelled from the spec: [Uart_WriteIntegerPoll] of mt3620-uart-poll, the
    serial collaborator's [write_integer(n)]. *)
Definition Uart_WriteIntegerPoll (n : Z) : St console unit :=
  Uart_WriteStringPoll (decimal n).

(** Modelled from the spec: [Uart_WriteIntegerWidthPoll] of mt3620-uart-poll,
    the serial collaborator's [write_integer_width(n, min_digits)], which
    pads with zeros on the left up to [min_digits] digits. *)
Definition Uart_WriteIntegerWidthPoll (n : Z) (width : nat) : St console unit :=
  Uart_WriteStringPoll (zero_pad width (decimal n)).

(** Modelled from the spec: [Gpt3_WaitUs] of mt3620-timer-poll, the timer
    collaborator's blocking [wait_microseconds(n)]. *)
Definition Gpt3_WaitUs (n : Z) : St console unit :=
  fun c => Some (tt, {| uart_tx := uart_tx c; waited_us := waited_us c + n |}).

(** [uint32_t mV = (value * 2500) / 0xFFF;] with the product taken in
    [uint32_t]; the operands are unsigned, so [/] and [%] are [Z.div] and
    [Z.modulo]. *)
Definition millivolts (value : Z) : Z := u32 (value * 2500) / 0xFFF.

(** One pass through the body of [for (;;)] in [RTCoreMain]; [adc0] is what
    [ReadAdc(0)] of the ADC collaborator returns on this pass, stored in the
    [uint32_t value]. *)
Definition RTCoreMain_iteration (adc0 : Z) : St console unit :=
  Gpt3_WaitUs (1000 * 1000);;
  let value := u32 adc0 in
  let mV := millivolts value in
  Uart_WriteIntegerPoll (mV / 1000);;
  Uart_WriteStringPoll ".";;
  Uart_WriteIntegerWidthPoll (mV mod 1000) 3;;
  Uart_WriteStringPoll CRLF.

(** The loop over the successive ADC samples. *)
Fixpoint RTCoreMain_loop (samples : list Z) : St console unit :=
  match samples with
  | [] => st_ret tt
  | adc0 :: rest => RTCoreMain_iteration adc0;; RTCoreMain_loop rest
  end.

(** The line the loop sends for a sample, from an empty transcript. *)
Definition report_line (adc0 : Z) : option string :=
  option_map uart_tx (exec (RTCoreMain_iteration adc0) (Console EmptyString 0)).

(** The shape the report is meant to have: one digit, a point, three
    digits, and the line end. *)
Definition fixed_point_line (mV : Z) : string :=
  String (digit_char (mV / 1000))
    (String "."
       (String (digit_char (mV / 100 mod 10))
          (String (digit_char (mV / 10 mod 10))
             (String (digit_char (mV mod 10)) CRLF)))).

(** What the four UART calls of one pass send for a millivolt value. *)
Definition sent_for (mV : Z) : string :=
  (decimal (mV / 1000) ++ "." ++ zero_pad 3 (decimal (mV mod 1000)) ++ CRLF)%string.

(** The first statement of [RTCoreMain], [SCB->VTOR = ExceptionVectorTable]:
    [table_addr] is the address the linker gives the table. *)
Definition RTCoreMain_install_vector_table (table_addr : Z) : St machine unit :=
  WriteReg32 SCB_BASE 0x08 table_addr.

(* ===================================================================== *)
(** ** Views of the machine used to state properties *)
(* ===================================================================== *)

(** Whether interrupt [irq] is enabled: its bit in the enable-register bank,
    bit [irq % 32] of word [irq / 32], as [EnableNvicInterrupt] lays it
    out. *)
Definition irq_enabled (s : machine) (irq : Z) : bool :=
  Z.testbit (load32 (mem s) (NVIC_ISER_BASE + 4 * (irq / 32))) (irq mod 32).

(** The byte of the priority bank that [SetNvicPriority] gives to [irq]. *)
Definition irq_priority_byte (s : machine) (irq : Z) : Z :=
  load8 (mem s) (NVIC_IPR_BASE + irq).

(** A computation that neither reads nor writes BASEPRI: run under another
    mask it does the same, and leaves that mask in place. *)
Definition ignores_basepri {A : Type} (c : St machine A) : Prop :=
  forall s b,
    c (with_basepri s b)
    = match c s with
      | Some (x, s') => Some (x, with_basepri s' b)
      | None => None
      end.

(** The alignment expression of [EXCEPTION_TABLE_ALIGNMENT], for a table of
    [size] bytes. *)
Definition table_alignment_for (size : Z) : Z :=
  if POW2_CEIL size <? 128 then 128 else POW2_CEIL size.

(* ===================================================================== *)
(** * Properties *)
(* ===================================================================== *)

(** ** Fixed-width arithmetic *)

Lemma u8_range z : is_u8 (u8 z).
Proof. unfold is_u8, u8. apply Z.mod_pos_bound. lia. Qed.

Lemma u32_range z : is_u32 (u32 z).
Proof. unfold is_u32, u32. apply Z.mod_pos_bound. lia. Qed.

Lemma u32_id z : is_u32 z -> u32 z = z.
Proof. unfold is_u32, u32. intros H. apply Z.mod_small. exact H. Qed.

Lemma u8_id z : is_u8 z -> u8 z = z.
Proof. unfold is_u8, u8. intros H. apply Z.mod_small. exact H. Qed.

Lemma testbit_u8 z i : Z.testbit (u8 z) i = (i <? 8) && Z.testbit z i.
Proof. unfold u8. apply Z.testbit_mod_pow2. lia. Qed.

Lemma testbit_u32 z i : Z.testbit (u32 z) i = (i <? 32) && Z.testbit z i.
Proof. unfold u32. apply Z.testbit_mod_pow2. lia. Qed.

Lemma testbit_is_u32_high z i : is_u32 z -> 32 <= i -> Z.testbit z i = false.
Proof.
  intros Hz Hi. rewrite <- (u32_id z Hz), testbit_u32.
  destruct (Z.ltb_spec i 32); [lia | reflexivity].
Qed.

(** Bit [i] of a value assembled from four bytes, least significant first. *)
Lemma testbit_le_bytes b0 b1 b2 b3 i :
  0 <= i ->
  Z.testbit (Z.lor (u8 b0) (Z.lor (Z.shiftl (u8 b1) 8)
              (Z.lor (Z.shiftl (u8 b2) 16) (Z.shiftl (u8 b3) 24)))) i
  = if i <? 8 then Z.testbit b0 i
    else if i <? 16 then Z.testbit b1 (i - 8)
    else if i <? 24 then Z.testbit b2 (i - 16)
    else if i <? 32 then Z.testbit b3 (i - 24)
    else false.
Proof.
  intros Hi.
  rewrite !Z.lor_spec, !Z.shiftl_spec, !testbit_u8 by lia.
  destruct (Z.ltb_spec i 8); destruct (Z.ltb_spec i 16);
    destruct (Z.ltb_spec i 24); destruct (Z.ltb_spec i 32); try lia;
    repeat match goal with
      | |- context [?a <? 8] => destruct (Z.ltb_spec a 8); try lia
      end;
    rewrite ?(Z.testbit_neg_r _ (i - 8)), ?(Z.testbit_neg_r _ (i - 16)),
      ?(Z.testbit_neg_r _ (i - 24)) by lia;
    simpl; rewrite ?orb_false_r; reflexivity.
Qed.

(** ** Memory *)

Lemma load8_store8 (m : gmap Z Z) a b v :
  load8 (store8 m a v) b = if decide (a = b) then u8 v else load8 m b.
Proof.
  unfold load8, store8. rewrite lookup_insert. case_decide.
  - simpl. unfold u8. rewrite Z.mod_mod by lia. reflexivity.
  - reflexivity.
Qed.

Lemma load32_range (m : gmap Z Z) a : is_u32 (load32 m a).
Proof.
  unfold load32, load8.
  set (b0 := default 0 (m !! a)). set (b1 := default 0 (m !! (a + 1))).
  set (b2 := default 0 (m !! (a + 2))). set (b3 := default 0 (m !! (a + 3))).
  assert (H : forall i, 0 <= i -> 32 <= i ->
    Z.testbit (Z.lor (u8 b0) (Z.lor (Z.shiftl (u8 b1) 8)
      (Z.lor (Z.shiftl (u8 b2) 16) (Z.shiftl (u8 b3) 24)))) i = false).
  { intros i Hi Hge. rewrite testbit_le_bytes by lia.
    destruct (Z.ltb_spec i 8); destruct (Z.ltb_spec i 16);
      destruct (Z.ltb_spec i 24); destruct (Z.ltb_spec i 32); lia || reflexivity. }
  set (w := Z.lor _ _) in *.
  assert (Hw : w = u32 w).
  { apply Z.bits_inj'. intros i Hi. rewrite testbit_u32.
    destruct (Z.ltb_spec i 32); [reflexivity | apply H; lia]. }
  rewrite Hw. apply u32_range.
Qed.

(** Reading back a stored word gives the word, truncated to 32 bits. *)
Lemma load32_store32 (m : gmap Z Z) a v : load32 (store32 m a v) a = u32 v.
Proof.
  unfold load32, store32. rewrite !load8_store8.
  repeat case_decide; try lia.
  apply Z.bits_inj'. intros i Hi.
  rewrite testbit_le_bytes, testbit_u32 by lia.
  destruct (Z.ltb_spec i 8); destruct (Z.ltb_spec i 16);
    destruct (Z.ltb_spec i 24); destruct (Z.ltb_spec i 32); try lia;
    simpl; rewrite ?Z.shiftr_spec by lia; try reflexivity; f_equal; lia.
Qed.

(** A word store touches the four bytes of the word and nothing else. *)
Lemma store32_other (m : gmap Z Z) a v b :
  (b < a \/ a + 3 < b) -> store32 m a v !! b = m !! b.
Proof.
  intros Hb. unfold store32, store8.
  rewrite !lookup_insert_ne by lia. reflexivity.
Qed.

Lemma load32_store32_other (m : gmap Z Z) a v b :
  (b + 3 < a \/ a + 3 < b) -> load32 (store32 m a v) b = load32 m b.
Proof.
  intros Hb. unfold load32, load8.
  rewrite !store32_other by lia. reflexivity.
Qed.

(** Storing a word over itself changes nothing. *)
Lemma store32_store32 (m : gmap Z Z) a v w :
  store32 (store32 m a v) a w = store32 m a w.
Proof.
  apply map_eq. intros b. unfold store32, store8.
  rewrite !lookup_insert. repeat case_decide; reflexivity || lia.
Qed.

Lemma store32_u32 (m : gmap Z Z) a v : store32 m a (u32 v) = store32 m a v.
Proof.
  unfold store32, store8.
  assert (E : forall k, 0 <= k <= 24 -> u8 (Z.shiftr (u32 v) k) = u8 (Z.shiftr v k)).
  { intros k Hk. apply Z.bits_inj'. intros i Hi.
    rewrite !testbit_u8, !Z.shiftr_spec, testbit_u32 by lia.
    destruct (Z.ltb_spec i 8); [| reflexivity].
    destruct (Z.ltb_spec (i + k) 32); [reflexivity | lia]. }
  rewrite (E 8), (E 16), (E 24) by lia.
  replace (u8 (u32 v)) with (u8 v); [reflexivity |].
  generalize (E 0). rewrite !Z.shiftr_0_r. intros H. symmetry. apply H. lia.
Qed.

(** ** Register access primitives *)

Lemma reg_addr_range baseAddr offset : is_u32 (reg_addr baseAddr offset).
Proof. apply u32_range. Qed.

Lemma WriteReg32_ReadReg32 baseAddr offset value s :
  eval (WriteReg32 baseAddr offset value;; ReadReg32 baseAddr offset) s
  = Some (u32 value).
Proof.
  unfold eval, st_bind, WriteReg32, ReadReg32. simpl.
  rewrite load32_store32. reflexivity.
Qed.

Lemma lor_is_u32 a b : is_u32 a -> is_u32 b -> is_u32 (Z.lor a b).
Proof.
  intros Ha Hb.
  assert (E : Z.lor a b = u32 (Z.lor a b)).
  { apply Z.bits_inj'. intros i Hi. rewrite testbit_u32.
    destruct (Z.ltb_spec i 32); [reflexivity |].
    rewrite Z.lor_spec, !testbit_is_u32_high by (assumption || lia).
    reflexivity. }
  rewrite E. apply u32_range.
Qed.

Lemma land_not32 a b : is_u32 a -> Z.land a (not32 b) = Z.land a (Z.lnot b).
Proof.
  intros Ha. apply Z.bits_inj'. intros i Hi.
  unfold not32. rewrite !Z.land_spec, testbit_u32.
  destruct (Z.ltb_spec i 32); [reflexivity |].
  rewrite testbit_is_u32_high by (assumption || lia). reflexivity.
Qed.

Lemma land_is_u32 a b : is_u32 a -> is_u32 (Z.land a b).
Proof.
  intros Ha.
  assert (E : Z.land a b = u32 (Z.land a b)).
  { apply Z.bits_inj'. intros i Hi. rewrite testbit_u32.
    destruct (Z.ltb_spec i 32); [reflexivity |].
    rewrite Z.land_spec, testbit_is_u32_high by (assumption || lia).
    reflexivity. }
  rewrite E. apply u32_range.
Qed.

Lemma SetReg32_state baseAddr offset setBits s :
  SetReg32 baseAddr offset setBits s
  = Some (tt, with_mem s (store32 (mem s) (reg_addr baseAddr offset)
                 (Z.lor (load32 (mem s) (reg_addr baseAddr offset)) setBits))).
Proof. reflexivity. Qed.

Lemma ClearReg32_state baseAddr offset clearBits s :
  ClearReg32 baseAddr offset clearBits s
  = Some (tt, with_mem s (store32 (mem s) (reg_addr baseAddr offset)
                 (Z.land (load32 (mem s) (reg_addr baseAddr offset))
                         (not32 clearBits)))).
Proof. reflexivity. Qed.

(** C6: on plain read/write memory, for every base address, offset, mask and
    initial register value [old], reading the register after
    [SetReg32] gives [old | mask], and after [ClearReg32] gives
    [old & ~mask]. *)
Theorem SetReg32_ClearReg32_then_read (baseAddr offset mask old : Z) (s : machine) :
  is_u32 mask ->
  eval (ReadReg32 baseAddr offset) s = Some old ->
  eval (SetReg32 baseAddr offset mask;; ReadReg32 baseAddr offset) s
    = Some (Z.lor old mask) /\
  eval (ClearReg32 baseAddr offset mask;; ReadReg32 baseAddr offset) s
    = Some (Z.land old (Z.lnot mask)).
Proof.
  intros Hmask Hold.
  unfold eval in Hold. simpl in Hold. injection Hold as Hold.
  assert (Hr : is_u32 old) by (subst old; apply load32_range).
  split.
  - unfold eval, st_bind. rewrite SetReg32_state. simpl.
    rewrite load32_store32, Hold. f_equal.
    apply u32_id, lor_is_u32; assumption.
  - unfold eval, st_bind. rewrite ClearReg32_state. simpl.
    rewrite load32_store32, Hold. f_equal.
    rewrite u32_id by (apply land_is_u32; assumption).
    apply land_not32. assumption.
Qed.

Lemma SetReg32_ClearReg32_then_read_witness :
  is_u32 0x0F0 /\
  eval (ReadReg32 NVIC_ISER_BASE 4)
       (Machine (store32 ∅ (NVIC_ISER_BASE + 4) 0x3C) 0) = Some 0x3C /\
  eval (SetReg32 NVIC_ISER_BASE 4 0x0F0;; ReadReg32 NVIC_ISER_BASE 4)
       (Machine (store32 ∅ (NVIC_ISER_BASE + 4) 0x3C) 0) = Some 0x0FC /\
  eval (ClearReg32 NVIC_ISER_BASE 4 0x0F0;; ReadReg32 NVIC_ISER_BASE 4)
       (Machine (store32 ∅ (NVIC_ISER_BASE + 4) 0x3C) 0) = Some 0x00C.
Proof.
  assert (H1 : is_u32 0x0F0) by (unfold is_u32; lia).
  assert (H2 : eval (ReadReg32 NVIC_ISER_BASE 4)
       (Machine (store32 ∅ (NVIC_ISER_BASE + 4) 0x3C) 0) = Some 0x3C)
    by (vm_compute; reflexivity).
  split; [exact H1 |]. split; [exact H2 |].
  exact (SetReg32_ClearReg32_then_read NVIC_ISER_BASE 4 0x0F0 0x3C _ H1 H2).
Defined.

(** ** Interrupt control *)

Lemma shl32_defined {S : Type} a n (s : S) :
  0 <= n < 32 -> shl32 a n s = Some (u32 (Z.shiftl a n), s).
Proof.
  intros Hn. unfold shl32.
  destruct (Z.leb_spec 0 n); [| lia]. destruct (Z.ltb_spec n 32); [| lia].
  reflexivity.
Qed.

Lemma EnableNvicInterrupt_state i s :
  0 <= i ->
  EnableNvicInterrupt i s
  = SetReg32 NVIC_ISER_BASE (4 * (i / 32)) (2 ^ (i mod 32)) s.
Proof.
  intros Hi. unfold EnableNvicInterrupt, st_bind.
  rewrite Z.quot_div_nonneg, Z.rem_mod_nonneg by lia.
  assert (Hm : 0 <= i mod 32 < 32) by (apply Z.mod_pos_bound; lia).
  rewrite shl32_defined by exact Hm.
  rewrite Z.shiftl_1_l, u32_id; [reflexivity |].
  unfold is_u32. split; [apply Z.pow_nonneg; lia |].
  apply Z.pow_lt_mono_r; lia.
Qed.

Lemma ISER_word_addr i :
  0 <= i < Z.of_nat INTERRUPT_COUNT ->
  reg_addr NVIC_ISER_BASE (4 * (i / 32)) = NVIC_ISER_BASE + 4 * (i / 32).
Proof.
  intros Hi. unfold reg_addr, INTERRUPT_COUNT in *. apply u32_id.
  assert (0 <= i / 32 <= 3).
  { split; [apply Z.div_pos; lia |].
    apply Z.lt_succ_r, Z.div_lt_upper_bound; lia. }
  unfold is_u32, NVIC_ISER_BASE. lia.
Qed.

(** C5: for every interrupt number [i] in [0, INTERRUPT_COUNT),
    [EnableNvicInterrupt i] returns, and in the word of the enable-register
    bank at byte offset [4 * (i / 32)] it sets bit [i mod 32] and leaves every
    other bit as it was. *)
Theorem EnableNvicInterrupt_sets_bit (i old : Z) (s : machine) :
  0 <= i < Z.of_nat INTERRUPT_COUNT ->
  load32 (mem s) (NVIC_ISER_BASE + 4 * (i / 32)) = old ->
  exists s' new,
    EnableNvicInterrupt i s = Some (tt, s') /\
    load32 (mem s') (NVIC_ISER_BASE + 4 * (i / 32)) = new /\
    eval (ReadReg32 NVIC_ISER_BASE (4 * (i / 32))) s' = Some new /\
    Z.testbit new (i mod 32) = true /\
    (forall j, j <> i mod 32 -> Z.testbit new j = Z.testbit old j).
Proof.
  intros Hi Hold.
  assert (Hm : 0 <= i mod 32 < 32) by (apply Z.mod_pos_bound; lia).
  assert (Hr : is_u32 old) by (subst old; apply load32_range).
  assert (Hp : is_u32 (2 ^ (i mod 32))).
  { unfold is_u32. split; [apply Z.pow_nonneg; lia |].
    apply Z.pow_lt_mono_r; lia. }
  eexists. exists (Z.lor old (2 ^ (i mod 32))).
  split.
  { rewrite EnableNvicInterrupt_state, SetReg32_state by lia.
    rewrite ISER_word_addr by exact Hi. reflexivity. }
  assert (Hnew : load32 (store32 (mem s) (NVIC_ISER_BASE + 4 * (i / 32))
                   (Z.lor (load32 (mem s) (NVIC_ISER_BASE + 4 * (i / 32)))
                          (2 ^ (i mod 32))))
                   (NVIC_ISER_BASE + 4 * (i / 32))
                 = Z.lor old (2 ^ (i mod 32))).
  { rewrite load32_store32, Hold. apply u32_id, lor_is_u32; assumption. }
  split; [exact Hnew |]. split.
  { unfold eval, ReadReg32. rewrite ISER_word_addr by exact Hi.
    simpl. f_equal. exact Hnew. }
  split.
  - rewrite Z.lor_spec, Z.pow2_bits_true by lia. apply orb_true_r.
  - intros j Hj. rewrite Z.lor_spec, Z.pow2_bits_false by congruence.
    apply orb_false_r.
Qed.

Lemma EnableNvicInterrupt_sets_bit_witness :
  0 <= 37 < Z.of_nat INTERRUPT_COUNT /\
  load32 (mem (Machine (store32 ∅ (NVIC_ISER_BASE + 4) 0x81) 0))
         (NVIC_ISER_BASE + 4 * (37 / 32)) = 0x81 /\
  exists s' new,
    EnableNvicInterrupt 37 (Machine (store32 ∅ (NVIC_ISER_BASE + 4) 0x81) 0)
      = Some (tt, s') /\
    load32 (mem s') (NVIC_ISER_BASE + 4 * (37 / 32)) = new /\
    eval (ReadReg32 NVIC_ISER_BASE (4 * (37 / 32))) s' = Some new /\
    Z.testbit new (37 mod 32) = true /\
    (forall j, j <> 37 mod 32 -> Z.testbit new j = Z.testbit 0x81 j).
Proof.
  assert (H1 : 0 <= 37 < Z.of_nat INTERRUPT_COUNT) by (unfold INTERRUPT_COUNT; lia).
  assert (H2 : load32 (mem (Machine (store32 ∅ (NVIC_ISER_BASE + 4) 0x81) 0))
                 (NVIC_ISER_BASE + 4 * (37 / 32)) = 0x81)
    by (vm_compute; reflexivity).
  split; [exact H1 |]. split; [exact H2 |].
  exact (EnableNvicInterrupt_sets_bit 37 0x81 _ H1 H2).
Defined.

(** Enabling an interrupt changes no byte outside the addressed word, and
    not the BASEPRI register. *)
Lemma EnableNvicInterrupt_frame i s s' b :
  0 <= i < Z.of_nat INTERRUPT_COUNT ->
  EnableNvicInterrupt i s = Some (tt, s') ->
  (b < NVIC_ISER_BASE + 4 * (i / 32) \/ NVIC_ISER_BASE + 4 * (i / 32) + 3 < b) ->
  mem s' !! b = mem s !! b /\ basepri s' = basepri s.
Proof.
  intros Hi Hrun Hb.
  rewrite EnableNvicInterrupt_state, SetReg32_state in Hrun by lia.
  rewrite ISER_word_addr in Hrun by exact Hi.
  injection Hrun as <-. simpl. split; [| reflexivity].
  apply store32_other. exact Hb.
Qed.

Lemma SetReg32_idempotent baseAddr offset setBits s :
  (SetReg32 baseAddr offset setBits;; SetReg32 baseAddr offset setBits) s
  = SetReg32 baseAddr offset setBits s.
Proof.
  unfold st_bind. rewrite !SetReg32_state. simpl.
  rewrite load32_store32, store32_store32.
  do 2 f_equal. unfold with_mem. simpl. f_equal.
  rewrite <- store32_u32. symmetry. rewrite <- store32_u32. symmetry.
  f_equal. apply Z.bits_inj'. intros k Hk.
  rewrite !testbit_u32, !Z.lor_spec, testbit_u32, Z.lor_spec.
  destruct (Z.ltb_spec k 32); simpl; [| reflexivity].
  destruct (Z.testbit _ k), (Z.testbit setBits k); reflexivity.
Qed.

(** C8: enabling an interrupt twice leaves the machine exactly as enabling
    it once, for every interrupt number and every initial state (when the
    shift of the mask is undefined, both are undefined). *)
Theorem EnableNvicInterrupt_idempotent (i : Z) (s : machine) :
  (EnableNvicInterrupt i;; EnableNvicInterrupt i) s = EnableNvicInterrupt i s.
Proof.
  unfold EnableNvicInterrupt.
  unfold shl32. destruct ((0 <=? Z.rem i 32) && (Z.rem i 32 <? 32)).
  - exact (SetReg32_idempotent NVIC_ISER_BASE (4 * Z.quot i 32)
             (u32 (Z.shiftl 1 (Z.rem i 32))) s).
  - reflexivity.
Qed.

(** For a non-negative interrupt number the call is defined. *)
Lemma EnableNvicInterrupt_defined i s :
  0 <= i -> is_Some (EnableNvicInterrupt i s).
Proof.
  intros Hi. rewrite EnableNvicInterrupt_state, SetReg32_state by exact Hi.
  eexists. reflexivity.
Qed.

(** ** Critical sections *)

Lemma BlockIrqs_state s :
  BlockIrqs s = Some (u32 (basepri s), with_basepri s 1).
Proof. reflexivity. Qed.

Lemma with_basepri_same s : with_basepri s (basepri s) = s.
Proof. destruct s. reflexivity. Qed.

Lemma with_basepri_twice s a b :
  with_basepri (with_basepri s a) b = with_basepri s b.
Proof. reflexivity. Qed.

(** C4: whatever 32-bit value the base-priority mask holds, [BlockIrqs]
    followed at once by [RestoreIrqs] on its token gives back the state it
    started from; and with two properly nested pairs the inner restore
    returns to the blocked level of the outer pair, and the outer restore
    to the original state. *)
Theorem BlockIrqs_RestoreIrqs_restores (s : machine) :
  is_u32 (basepri s) ->
  (token ← BlockIrqs; RestoreIrqs token) s = Some (tt, s) /\
  exec (outer ← BlockIrqs; inner ← BlockIrqs; RestoreIrqs inner) s
    = Some (with_basepri s 1) /\
  (outer ← BlockIrqs; inner ← BlockIrqs;
   RestoreIrqs inner;; RestoreIrqs outer) s = Some (tt, s).
Proof.
  intros Hb.
  assert (E : with_basepri s (u32 (u32 (basepri s))) = s).
  { rewrite !u32_id by (assumption || apply u32_range).
    apply with_basepri_same. }
  split; [| split].
  - unfold st_bind. rewrite BlockIrqs_state.
    unfold RestoreIrqs, msr_BASEPRI. rewrite with_basepri_twice, E.
    reflexivity.
  - reflexivity.
  - unfold st_bind. rewrite !BlockIrqs_state.
    unfold RestoreIrqs, msr_BASEPRI. rewrite !with_basepri_twice, E.
    reflexivity.
Qed.

Lemma BlockIrqs_RestoreIrqs_restores_witness :
  is_u32 (basepri (Machine ∅ 0xE0)) /\
  (token ← BlockIrqs; RestoreIrqs token) (Machine ∅ 0xE0)
    = Some (tt, Machine ∅ 0xE0) /\
  exec (outer ← BlockIrqs; inner ← BlockIrqs; RestoreIrqs inner) (Machine ∅ 0xE0)
    = Some (with_basepri (Machine ∅ 0xE0) 1) /\
  (outer ← BlockIrqs; inner ← BlockIrqs;
   RestoreIrqs inner;; RestoreIrqs outer) (Machine ∅ 0xE0)
    = Some (tt, Machine ∅ 0xE0).
Proof.
  assert (H : is_u32 (basepri (Machine ∅ 0xE0))) by (unfold is_u32; simpl; lia).
  split; [exact H |].
  exact (BlockIrqs_RestoreIrqs_restores (Machine ∅ 0xE0) H).
Defined.

(** The two states the claim names: already blocked and not blocked. *)
Example BlockIrqs_RestoreIrqs_blocked (m : gmap Z Z) :
  (token ← BlockIrqs; RestoreIrqs token) (Machine m 1) = Some (tt, Machine m 1).
Proof. reflexivity. Qed.

Example BlockIrqs_RestoreIrqs_unblocked (m : gmap Z Z) :
  (token ← BlockIrqs; RestoreIrqs token) (Machine m 0) = Some (tt, Machine m 0).
Proof. reflexivity. Qed.

(** ** Interrupt priorities *)

Lemma SetNvicPriority_state irqNum pri s :
  SetNvicPriority irqNum pri s
  = Some (tt, with_mem s (store8 (mem s) (reg_addr NVIC_IPR_BASE irqNum)
                                 (Z.shiftl pri 5))).
Proof. reflexivity. Qed.

(** The byte that [SetNvicPriority] leaves in the priority register. *)
Lemma SetNvicPriority_byte_value irqNum pri s s' :
  SetNvicPriority irqNum pri s = Some (tt, s') ->
  load8 (mem s') (reg_addr NVIC_IPR_BASE irqNum) = Z.shiftl (pri mod 8) 5.
Proof.
  rewrite SetNvicPriority_state. intros [= <-]. simpl.
  rewrite load8_store8. case_decide; [| congruence].
  unfold u8. rewrite !Z.shiftl_mul_pow2 by lia.
  change (2 ^ 8) with (8 * 2 ^ 5).
  rewrite Z.mul_mod_distr_r by lia. reflexivity.
Qed.

Lemma shiftl5_low_bits z : Z.land (Z.shiftl z 5) 0x1F = 0.
Proof.
  apply Z.bits_inj'. intros i Hi.
  rewrite Z.land_spec, Z.bits_0. change 0x1F with (Z.ones 5).
  rewrite Z.testbit_ones_nonneg by lia.
  destruct (Z.ltb_spec i 5).
  - rewrite Z.shiftl_spec_low by lia. reflexivity.
  - apply andb_false_r.
Qed.

Lemma SetNvicPriority_low_bits irqNum pri s s' :
  SetNvicPriority irqNum pri s = Some (tt, s') ->
  Z.land (load8 (mem s') (reg_addr NVIC_IPR_BASE irqNum)) 0x1F = 0.
Proof.
  intros H. rewrite (SetNvicPriority_byte_value _ _ _ _ H).
  apply shiftl5_low_bits.
Qed.

(** C3, as stated, fails: no priority above 7 makes [SetNvicPriority] write a
    byte with a bit set below the 3-bit field. *)
Lemma SetNvicPriority_never_sets_low_bits :
  ~ exists irqNum pri s s',
      7 < pri /\
      SetNvicPriority irqNum pri s = Some (tt, s') /\
      Z.land (load8 (mem s') (reg_addr NVIC_IPR_BASE irqNum)) 0x1F <> 0.
Proof.
  intros (irqNum & pri & s & s' & _ & Hrun & Hbits).
  apply Hbits. exact (SetNvicPriority_low_bits _ _ _ _ Hrun).
Qed.

(** C3, amended: for every [uint8_t] priority, [SetNvicPriority] returns and
    writes one byte, [(pri mod 8) << 5]: the low 5 bits are zero, the top 3
    bits hold the low 3 bits of [pri] (a priority above 7 is truncated), no
    other byte and not BASEPRI changes; for a priority in 0..7 the byte is
    [pri << 5]. *)
Theorem SetNvicPriority_byte (irqNum pri : Z) (s : machine) :
  is_u8 pri ->
  exists s',
    SetNvicPriority irqNum pri s = Some (tt, s') /\
    let b := load8 (mem s') (reg_addr NVIC_IPR_BASE irqNum) in
    b = Z.shiftl (pri mod 2 ^ IRQ_PRIORITY_BITS) (8 - IRQ_PRIORITY_BITS) /\
    Z.land b 0x1F = 0 /\
    Z.shiftr b 5 = pri mod 2 ^ IRQ_PRIORITY_BITS /\
    (pri < 2 ^ IRQ_PRIORITY_BITS -> b = Z.shiftl pri 5) /\
    (forall a, a <> reg_addr NVIC_IPR_BASE irqNum -> mem s' !! a = mem s !! a) /\
    basepri s' = basepri s.
Proof.
  intros Hpri. eexists. split; [apply SetNvicPriority_state |].
  cbv zeta.
  rewrite (SetNvicPriority_byte_value irqNum pri s _ (SetNvicPriority_state _ _ _)).
  change (2 ^ IRQ_PRIORITY_BITS) with 8. change (8 - IRQ_PRIORITY_BITS) with 5.
  split; [reflexivity |]. split; [apply shiftl5_low_bits |].
  split; [rewrite Z.shiftr_shiftl_l, Z.sub_diag by lia; apply Z.shiftl_0_r |].
  split.
  { intros Hlt. rewrite Z.mod_small; [reflexivity |]. unfold is_u8 in Hpri. lia. }
  split; [| reflexivity].
  intros a Ha. simpl. unfold store8. apply lookup_insert_ne. congruence.
Qed.

Lemma SetNvicPriority_byte_witness :
  is_u8 9 /\
  exists s',
    SetNvicPriority 17 9 (Machine ∅ 0) = Some (tt, s') /\
    let b := load8 (mem s') (reg_addr NVIC_IPR_BASE 17) in
    b = Z.shiftl (9 mod 2 ^ IRQ_PRIORITY_BITS) (8 - IRQ_PRIORITY_BITS) /\
    Z.land b 0x1F = 0 /\
    Z.shiftr b 5 = 9 mod 2 ^ IRQ_PRIORITY_BITS /\
    (9 < 2 ^ IRQ_PRIORITY_BITS -> b = Z.shiftl 9 5) /\
    (forall a, a <> reg_addr NVIC_IPR_BASE 17 ->
               mem s' !! a = mem (Machine ∅ 0) !! a) /\
    basepri s' = basepri (Machine ∅ 0).
Proof.
  assert (H : is_u8 9) by (unfold is_u8; lia).
  split; [exact H |].
  exact (SetNvicPriority_byte 17 9 (Machine ∅ 0) H).
Defined.

(** Priority 9 is written as the byte of priority 1; priority 8 as zero. *)
Example SetNvicPriority_9 :
  option_map (fun s' => load8 (mem s') (reg_addr NVIC_IPR_BASE 17))
             (exec (SetNvicPriority 17 9) (Machine ∅ 0)) = Some 0x20.
Proof. vm_compute. reflexivity. Qed.

Example SetNvicPriority_8 :
  option_map (fun s' => load8 (mem s') (reg_addr NVIC_IPR_BASE 17))
             (exec (SetNvicPriority 17 8) (Machine ∅ 0)) = Some 0.
Proof. vm_compute. reflexivity. Qed.

(** ** The power-of-two ceiling *)

Lemma least_pow2_ge_row k lo hi x :
  0 < k -> lo = 2 ^ (k - 1) -> hi = 2 ^ k ->
  lo < x -> x <= hi -> least_pow2_ge x hi.
Proof.
  intros Hk -> -> Hlo Hhi. split; [| split].
  - exists k. split; [lia | reflexivity].
  - exact Hhi.
  - intros q (j & Hj & ->) Hq.
    apply Z.pow_le_mono_r; [lia |].
    assert (Hlt : 2 ^ (k - 1) < 2 ^ j) by lia.
    apply Z.pow_lt_mono_r_iff in Hlt; lia.
Qed.

Lemma least_pow2_ge_one x : 1 <= x -> x <= 1 -> least_pow2_ge x 1.
Proof.
  intros H1 H2. split; [| split].
  - exists 0. split; [lia | reflexivity].
  - exact H2.
  - intros q (j & Hj & ->) _.
    assert (0 < 2 ^ j) by (apply Z.pow_pos_nonneg; lia). lia.
Qed.

(** One row of the macro: either the row fires, and its constant is the
    answer for the band the earlier rows left open, or the next row is
    tried. *)
Ltac pow2_ceil_rows :=
  lazymatch goal with
  | |- least_pow2_ge ?x (if ?x >? ?c then ?r else _) =>
      destruct (Z.gtb_spec x c);
      [ first
          [ lia
          | let k := eval vm_compute in (Z.log2 r) in
            apply (least_pow2_ge_row k c r x);
            [ reflexivity | reflexivity | reflexivity | assumption | assumption ] ]
      | pow2_ceil_rows ]
  | |- least_pow2_ge ?x 1 => apply least_pow2_ge_one; assumption
  end.

Lemma POW2_CEIL_least x :
  1 <= x <= 2 ^ 63 -> least_pow2_ge x (POW2_CEIL x).
Proof.
  intros [Hlo Hhi]. change (2 ^ 63) with 0x8000000000000000 in Hhi.
  unfold POW2_CEIL. pow2_ceil_rows.
Qed.

(** C9: for every [x] with [1 <= x <= 2^63], [POW2_CEIL x] is the least
    power of two that is at least [x]; when [x] is itself a power of two the
    result is [x]. *)
Theorem POW2_CEIL_correct (x : Z) :
  1 <= x <= 2 ^ 63 ->
  least_pow2_ge x (POW2_CEIL x) /\ (is_pow2 x -> POW2_CEIL x = x).
Proof.
  intros Hx. pose proof (POW2_CEIL_least x Hx) as Hl.
  split; [exact Hl |].
  intros Hp. destruct Hl as (_ & Hge & Hmin).
  specialize (Hmin x Hp (Z.le_refl x)). lia.
Qed.

Lemma POW2_CEIL_correct_witness :
  1 <= 464 <= 2 ^ 63 /\
  least_pow2_ge 464 (POW2_CEIL 464) /\ (is_pow2 464 -> POW2_CEIL 464 = 464).
Proof.
  assert (H : 1 <= 464 <= 2 ^ 63) by lia.
  split; [exact H |]. exact (POW2_CEIL_correct 464 H).
Defined.

Example POW2_CEIL_464 : POW2_CEIL 464 = 512.
Proof. reflexivity. Qed.

Example POW2_CEIL_512 : POW2_CEIL 512 = 512.
Proof. reflexivity. Qed.

Example POW2_CEIL_top : POW2_CEIL (2 ^ 63) = 2 ^ 63.
Proof. reflexivity. Qed.

(** Outside the range of the claim: nothing fits above [2^63], and zero is
    rounded up to one. *)
Example POW2_CEIL_above : POW2_CEIL (2 ^ 63 + 1) = 0.
Proof. reflexivity. Qed.

Example POW2_CEIL_zero : POW2_CEIL 0 = 1.
Proof. reflexivity. Qed.

(** The macro agrees with the usual closed form on its range. *)
Lemma POW2_CEIL_log2_up x :
  1 <= x <= 2 ^ 63 -> POW2_CEIL x = 2 ^ Z.log2_up x.
Proof.
  intros Hx. destruct (POW2_CEIL_least x Hx) as ((k & Hk & Hp) & Hge & Hmin).
  assert (Hup : 0 <= Z.log2_up x) by apply Z.log2_up_nonneg.
  apply Z.le_antisymm.
  - apply Hmin.
    + exists (Z.log2_up x). split; [exact Hup | reflexivity].
    + destruct (Z.eq_dec x 1) as [-> | Hne]; [reflexivity |].
      apply Z.log2_up_spec. lia.
  - rewrite Hp. apply Z.pow_le_mono_r; [lia |].
    destruct (Z.eq_dec x 1) as [-> | Hne]; [exact Hk |].
    assert (Hs : 2 ^ Z.pred (Z.log2_up x) < x) by (apply Z.log2_up_spec; lia).
    assert (Hlt : 2 ^ Z.pred (Z.log2_up x) < 2 ^ k) by lia.
    apply Z.pow_lt_mono_r_iff in Hlt; lia.
Qed.

(** ** The exception vector table: size and alignment *)


Lemma EXCEPTION_TABLE_EXPECTED_SIZE_value : EXCEPTION_TABLE_EXPECTED_SIZE = 464.
Proof. reflexivity. Qed.

Lemma EXCEPTION_TABLE_ALIGNMENT_value : EXCEPTION_TABLE_ALIGNMENT = 512.
Proof. reflexivity. Qed.

Lemma sizeof_EXCEPTION_VECTOR_TABLE_value : sizeof_EXCEPTION_VECTOR_TABLE = 512.
Proof. reflexivity. Qed.

(** Whatever size the compiler gives the table type, the assertion of the
    source is accepted only when that size is the alignment, 512 bytes. *)
Lemma table_assert_accepts_only_512 size :
  array_type_accepted (LOCAL_C_ASSERT (size =? EXCEPTION_TABLE_ALIGNMENT)) = true ->
  size = 512.
Proof.
  rewrite EXCEPTION_TABLE_ALIGNMENT_value.
  destruct (Z.eqb_spec size 512) as [-> | Hne]; [reflexivity |].
  simpl. discriminate.
Qed.


(** C2, as stated, fails: the table type is 512 bytes, not the 464 bytes of
    its 116 entries, and the assertion, which compares the size with the
    alignment, would be rejected if it compared it with the expected size. *)
Lemma vector_table_size_differs_from_expected :
  sizeof_EXCEPTION_VECTOR_TABLE = 512 /\
  (16 + Z.of_nat INTERRUPT_COUNT) * sizeof_uintptr_t = 464 /\
  sizeof_EXCEPTION_VECTOR_TABLE <> (16 + Z.of_nat INTERRUPT_COUNT) * sizeof_uintptr_t /\
  table_assert_sides.2 <> (16 + Z.of_nat INTERRUPT_COUNT) * sizeof_uintptr_t /\
  array_type_accepted
    (LOCAL_C_ASSERT (sizeof_EXCEPTION_VECTOR_TABLE =? EXCEPTION_TABLE_EXPECTED_SIZE))
  = false.
Proof.
  split; [reflexivity |]. split; [reflexivity |].
  split; [discriminate |]. split; [discriminate | reflexivity].
Qed.

(** C2, amended: the entry array of the table is
    [(16 + INTERRUPT_COUNT) * sizeof(uintptr_t)] = 464 bytes, which is the
    expected size; the table type is aligned to
    [max(128, POW2_CEIL(464))] = 512 bytes and its in-memory size is the array
    size rounded up to that alignment, 512 bytes; the build-time assertion
    compares the in-memory size with the alignment, and is accepted. *)
Theorem vector_table_size_and_alignment :
  sizeof_v = (16 + Z.of_nat INTERRUPT_COUNT) * sizeof_uintptr_t /\
  sizeof_v = EXCEPTION_TABLE_EXPECTED_SIZE /\
  EXCEPTION_TABLE_EXPECTED_SIZE = 464 /\
  alignof_EXCEPTION_VECTOR_TABLE
    = Z.max 128 (POW2_CEIL EXCEPTION_TABLE_EXPECTED_SIZE) /\
  alignof_EXCEPTION_VECTOR_TABLE = 512 /\
  alignof_EXCEPTION_VECTOR_TABLE
    mod Z.max 128 (POW2_CEIL EXCEPTION_TABLE_EXPECTED_SIZE) = 0 /\
  sizeof_EXCEPTION_VECTOR_TABLE
    = align_up EXCEPTION_TABLE_EXPECTED_SIZE alignof_EXCEPTION_VECTOR_TABLE /\
  sizeof_EXCEPTION_VECTOR_TABLE = 512 /\
  table_assert_sides = (sizeof_EXCEPTION_VECTOR_TABLE, EXCEPTION_TABLE_ALIGNMENT) /\
  array_type_accepted table_assert = true.
Proof. repeat split. Qed.

(** ** The exception vector table: contents *)

Lemma ExceptionVectorTable_length addr_of :
  length (ExceptionVectorTable addr_of) = EXCEPTION_COUNT.
Proof. reflexivity. Qed.

Lemma ExceptionVectorTable_interrupt_slots addr_of (i : nat) :
  (16 <= i <= 115)%nat ->
  ExceptionVectorTable addr_of !! i = Some (addr_of DefaultExceptionHandler).
Proof.
  intros Hi.
  set (t := ExceptionVectorTable addr_of).
  cbv in t. subst t.
  do 16 (destruct i as [| i]; [lia |]).
  do 100 (destruct i as [| i]; [reflexivity |]).
  lia.
Qed.

(** C7: slot 0 holds the address of [StackTop], a data object; slot 1 holds
    [RTCoreMain]; slots 2-6, 11, 12, 14, 15 and the 100 interrupt slots
    16..115 all hold [DefaultExceptionHandler]; slots 7-10 and 13 are zero. *)
Theorem ExceptionVectorTable_slots (addr_of : symbol -> Z) :
  let table := ExceptionVectorTable addr_of in
  length table = 116%nat /\
  table !! 0%nat = Some (addr_of StackTop) /\
  kind_of StackTop = DataObject /\
  table !! 1%nat = Some (addr_of RTCoreMain) /\
  kind_of RTCoreMain = CodeFunction /\
  (forall i : nat, In i [2; 3; 4; 5; 6; 11; 12; 14; 15]%nat ->
     table !! i = Some (addr_of DefaultExceptionHandler)) /\
  (forall i : nat, (16 <= i <= 115)%nat ->
     table !! i = Some (addr_of DefaultExceptionHandler)) /\
  (forall i : nat, In i [7; 8; 9; 10; 13]%nat -> table !! i = Some 0).
Proof.
  cbv zeta. split; [reflexivity |]. split; [reflexivity |].
  split; [reflexivity |]. split; [reflexivity |]. split; [reflexivity |].
  split; [| split].
  - intros i Hi. simpl in Hi.
    repeat (destruct Hi as [<- | Hi]; [reflexivity |]). contradiction.
  - apply ExceptionVectorTable_interrupt_slots.
  - intros i Hi. simpl in Hi.
    repeat (destruct Hi as [<- | Hi]; [reflexivity |]). contradiction.
Qed.

Lemma ExceptionVectorTable_slots_witness :
  let addr_of := fun s => match s with
                          | StackTop => 0x00200000
                          | DefaultExceptionHandler => 0x00100201
                          | RTCoreMain => 0x00100205
                          end in
  let table := ExceptionVectorTable addr_of in
  In 11%nat [2; 3; 4; 5; 6; 11; 12; 14; 15]%nat /\
  (16 <= 57 <= 115)%nat /\
  In 13%nat [7; 8; 9; 10; 13]%nat /\
  table !! 11%nat = Some 0x00100201 /\
  table !! 57%nat = Some 0x00100201 /\
  table !! 13%nat = Some 0.
Proof.
  intros addr_of table.
  destruct (ExceptionVectorTable_slots addr_of)
    as (_ & _ & _ & _ & _ & Hexc & Hint & Hres).
  assert (H1 : In 11%nat [2; 3; 4; 5; 6; 11; 12; 14; 15]%nat)
    by (simpl; tauto).
  assert (H2 : (16 <= 57 <= 115)%nat) by lia.
  assert (H3 : In 13%nat [7; 8; 9; 10; 13]%nat) by (simpl; tauto).
  split; [exact H1 |]. split; [exact H2 |]. split; [exact H3 |].
  split; [exact (Hexc 11%nat H1) |].
  split; [exact (Hint 57%nat H2) | exact (Hres 13%nat H3)].
Defined.

(** ** Millivolt conversion *)

(** C10: for a raw sample in [0, 0xFFF] the product [value * 2500] is at most
    10,237,500 and is not reduced by the 32-bit wrap-around; the millivolt
    value lies in [0, 2500], its whole part in [0, 2] and its fractional part
    in [0, 999], three decimal digits at most. *)
Theorem millivolts_bounds (value : Z) :
  0 <= value <= 0xFFF ->
  value * 2500 <= 10237500 /\
  10237500 < 2 ^ 32 /\
  u32 (value * 2500) = value * 2500 /\
  millivolts value = value * 2500 / 0xFFF /\
  0 <= millivolts value <= 2500 /\
  0 <= millivolts value / 1000 <= 2 /\
  0 <= millivolts value mod 1000 <= 999 /\
  millivolts value mod 1000 < 10 ^ 3.
Proof.
  intros Hv.
  assert (Hu : u32 (value * 2500) = value * 2500).
  { apply u32_id. unfold is_u32. lia. }
  assert (Hm : millivolts value = value * 2500 / 0xFFF).
  { unfold millivolts. rewrite Hu. reflexivity. }
  assert (Hr : 0 <= millivolts value <= 2500).
  { rewrite Hm. split.
    - apply Z.div_pos; lia.
    - apply Z.lt_succ_r, Z.div_lt_upper_bound; lia. }
  assert (Hf : 0 <= millivolts value mod 1000 < 1000)
    by (apply Z.mod_pos_bound; lia).
  repeat split; try lia.
  - apply Z.div_pos; lia.
  - apply Z.lt_succ_r, Z.div_lt_upper_bound; lia.
Qed.

Lemma millivolts_bounds_witness :
  0 <= 2048 <= 0xFFF /\
  2048 * 2500 <= 10237500 /\
  10237500 < 2 ^ 32 /\
  u32 (2048 * 2500) = 2048 * 2500 /\
  millivolts 2048 = 2048 * 2500 / 0xFFF /\
  0 <= millivolts 2048 <= 2500 /\
  0 <= millivolts 2048 / 1000 <= 2 /\
  0 <= millivolts 2048 mod 1000 <= 999 /\
  millivolts 2048 mod 1000 < 10 ^ 3.
Proof.
  assert (H : 0 <= 2048 <= 0xFFF) by lia.
  split; [exact H |]. exact (millivolts_bounds 2048 H).
Defined.

(** The bound on the product is reached by the full-scale sample. *)
Example millivolts_full_scale_product : 0xFFF * 2500 = 10237500.
Proof. reflexivity. Qed.

(** ** The report line *)

Lemma string_app_assoc (a b c : string) :
  ((a ++ b) ++ c = a ++ (b ++ c))%string.
Proof.
  induction a as [| x a IH]; [reflexivity |].
  change (String x ((a ++ b) ++ c) = String x (a ++ b ++ c))%string.
  rewrite IH. reflexivity.
Qed.

Lemma RTCoreMain_iteration_state adc0 c :
  RTCoreMain_iteration adc0 c
  = Some (tt, {| uart_tx := (uart_tx c ++ sent_for (millivolts (u32 adc0)))%string;
                 waited_us := waited_us c + 1000 * 1000 |}).
Proof.
  unfold RTCoreMain_iteration, st_bind, Gpt3_WaitUs, Uart_WriteIntegerPoll,
    Uart_WriteIntegerWidthPoll, Uart_WriteStringPoll, sent_for.
  simpl uart_tx. simpl waited_us.
  rewrite !string_app_assoc. reflexivity.
Qed.

(** Decimal digits of numbers below 1000. *)
Lemma decimal_1 n :
  0 <= n < 10 -> decimal n = String (digit_char n) EmptyString.
Proof.
  intros Hn. unfold decimal. destruct (Z.ltb_spec n 0); [lia |].
  cbn [digits_of]. rewrite Z.div_small, Z.mod_small by lia. reflexivity.
Qed.

Lemma decimal_2 n :
  10 <= n < 100 ->
  decimal n = String (digit_char (n / 10)) (String (digit_char (n mod 10)) EmptyString).
Proof.
  intros Hn. unfold decimal. destruct (Z.ltb_spec n 0); [lia |].
  assert (Hq : 1 <= n / 10 < 10) by (Z.div_mod_to_equations; lia).
  cbn [digits_of]. destruct (Z.eqb_spec (n / 10) 0); [lia |].
  rewrite (Z.div_small (n / 10)), (Z.mod_small (n / 10)) by lia. reflexivity.
Qed.

Lemma decimal_3 n :
  100 <= n < 1000 ->
  decimal n = String (digit_char (n / 100))
                (String (digit_char (n / 10 mod 10))
                   (String (digit_char (n mod 10)) EmptyString)).
Proof.
  intros Hn. unfold decimal. destruct (Z.ltb_spec n 0); [lia |].
  assert (Hq : 10 <= n / 10 < 100) by (Z.div_mod_to_equations; lia).
  assert (Hqq : n / 10 / 10 = n / 100) by (rewrite Z.div_div by lia; reflexivity).
  assert (Hh : 1 <= n / 100 < 10) by (Z.div_mod_to_equations; lia).
  cbn [digits_of]. destruct (Z.eqb_spec (n / 10) 0); [lia |].
  rewrite Hqq. destruct (Z.eqb_spec (n / 100) 0); [lia |].
  rewrite (Z.div_small (n / 100)), (Z.mod_small (n / 100)) by lia. reflexivity.
Qed.

(** A number below 1000, padded to three digits. *)
Lemma zero_pad_3 n :
  0 <= n < 1000 ->
  zero_pad 3 (decimal n)
  = String (digit_char (n / 100))
      (String (digit_char (n / 10 mod 10))
         (String (digit_char (n mod 10)) EmptyString)).
Proof.
  intros Hn.
  destruct (Z.lt_ge_cases n 10); [| destruct (Z.lt_ge_cases n 100)].
  - rewrite decimal_1 by lia.
    rewrite (Z.div_small n 100), (Z.div_small n 10), (Z.mod_small n 10) by lia.
    reflexivity.
  - rewrite decimal_2 by lia.
    rewrite (Z.div_small n 100), (Z.mod_small (n / 10) 10)
      by (Z.div_mod_to_equations; lia).
    reflexivity.
  - rewrite decimal_3 by lia. reflexivity.
Qed.

(** Every millivolt value up to 2500 is sent as one digit, a point and
    three digits. *)
Lemma sent_for_fixed_point mV :
  0 <= mV <= 2500 -> sent_for mV = fixed_point_line mV.
Proof.
  intros HmV. unfold sent_for, fixed_point_line.
  rewrite decimal_1, zero_pad_3 by (Z.div_mod_to_equations; lia).
  replace (mV mod 1000 / 100) with (mV / 100 mod 10)
    by (Z.div_mod_to_equations; lia).
  replace (mV mod 1000 / 10 mod 10) with (mV / 10 mod 10)
    by (Z.div_mod_to_equations; lia).
  replace (mV mod 1000 mod 10) with (mV mod 10)
    by (Z.div_mod_to_equations; lia).
  reflexivity.
Qed.

(** C1, as stated, fails at the sample 2048: [2048 * 2500 / 4095] is 1250,
    not 1249, and the line sent is "1.250". *)
Lemma sample_2048_is_not_1249_mV :
  2048 * 2500 / 0xFFF = 1250 /\
  millivolts 2048 = 1250 /\
  millivolts 2048 <> 1249 /\
  report_line 2048 = Some ("1.250" ++ CRLF)%string /\
  report_line 2048 <> Some ("1.249" ++ CRLF)%string.
Proof.
  split; [reflexivity |]. split; [reflexivity |]. split; [discriminate |].
  split; [reflexivity | discriminate].
Qed.

(** C1, amended: for every 12-bit sample the pass computes
    [mV = raw * 2500 / 0xFFF] by integer division, waits one second, and
    sends the whole part, a point, the fractional part padded with zeros to
    three digits, and the line end: one digit, a point, three digits.  The
    sample 0xFFF gives 2500 mV and "2.500", the sample 0 gives "0.000", and
    the sample 2048 gives 1250 mV and "1.250". *)
Theorem RTCoreMain_iteration_report (adc0 : Z) (c : console) :
  0 <= adc0 <= 0xFFF ->
  let mV := adc0 * 2500 / 0xFFF in
  millivolts adc0 = mV /\
  RTCoreMain_iteration adc0 c
    = Some (tt, {| uart_tx := (uart_tx c ++
                     (decimal (mV / 1000) ++ "." ++
                      zero_pad 3 (decimal (mV mod 1000)) ++ CRLF))%string;
                   waited_us := waited_us c + 1000000 |}) /\
  (decimal (mV / 1000) ++ "." ++ zero_pad 3 (decimal (mV mod 1000)) ++ CRLF)%string
    = fixed_point_line mV /\
  (millivolts 0xFFF = 2500 /\ report_line 0xFFF = Some ("2.500" ++ CRLF)%string) /\
  (millivolts 0 = 0 /\ report_line 0 = Some ("0.000" ++ CRLF)%string) /\
  (millivolts 2048 = 1250 /\ report_line 2048 = Some ("1.250" ++ CRLF)%string).
Proof.
  intros Hraw mV.
  assert (Hu : u32 adc0 = adc0) by (apply u32_id; unfold is_u32; lia).
  assert (Hm : millivolts adc0 = mV).
  { unfold millivolts, mV. rewrite u32_id; [reflexivity |]. unfold is_u32. lia. }
  assert (Hr : 0 <= mV <= 2500).
  { unfold mV. split; [apply Z.div_pos; lia |].
    apply Z.lt_succ_r, Z.div_lt_upper_bound; lia. }
  split; [exact Hm |]. split.
  { rewrite RTCoreMain_iteration_state, Hu, Hm. reflexivity. }
  split; [exact (sent_for_fixed_point mV Hr) |].
  repeat split.
Qed.

Lemma RTCoreMain_iteration_report_witness :
  0 <= 41 <= 0xFFF /\
  millivolts 41 = 25 /\
  RTCoreMain_iteration 41 (Console EmptyString 0)
    = Some (tt, Console ("0.025" ++ CRLF)%string 1000000).
Proof.
  assert (H : 0 <= 41 <= 0xFFF) by lia.
  destruct (RTCoreMain_iteration_report 41 (Console EmptyString 0) H)
    as (Hm & Hrun & _).
  split; [exact H |]. split; [exact Hm | exact Hrun].
Defined.

(** Successive passes append their lines in order. *)
Example RTCoreMain_loop_three :
  option_map uart_tx
    (exec (RTCoreMain_loop [0xFFF; 0; 2048]) (Console EmptyString 0))
  = Some ("2.500" ++ CRLF ++ "0.000" ++ CRLF ++ "1.250" ++ CRLF)%string.
Proof. reflexivity. Qed.

Example millivolts_2047 : millivolts 2047 = 1249.
Proof. reflexivity. Qed.

(* ===================================================================== *)
(** * Further properties of the register primitives *)
(* ===================================================================== *)

(** ** More on memory *)

Lemma store32_eq_u32 (m : gmap Z Z) a v w :
  u32 v = u32 w -> store32 m a v = store32 m a w.
Proof.
  intros E. rewrite <- (store32_u32 m a v), <- (store32_u32 m a w), E.
  reflexivity.
Qed.

Lemma store32_commute (m : gmap Z Z) a v b w :
  (a + 3 < b \/ b + 3 < a) ->
  store32 (store32 m a v) b w = store32 (store32 m b w) a v.
Proof.
  intros Hd. apply map_eq. intros x. unfold store32, store8.
  rewrite !lookup_insert. repeat case_decide; reflexivity || lia.
Qed.

Lemma store8_store8 (m : gmap Z Z) a v w :
  store8 (store8 m a v) a w = store8 m a w.
Proof. unfold store8. apply insert_insert_eq. Qed.

Lemma store8_store32_commute (m : gmap Z Z) a v b w :
  (a < b \/ b + 3 < a) ->
  store32 (store8 m a v) b w = store8 (store32 m b w) a v.
Proof.
  intros Hd. apply map_eq. intros x. unfold store32, store8.
  rewrite !lookup_insert. repeat case_decide; reflexivity || lia.
Qed.

Lemma load32_store8_other (m : gmap Z Z) a v b :
  (a < b \/ b + 3 < a) -> load32 (store8 m a v) b = load32 m b.
Proof.
  intros Hd. unfold load32. rewrite !load8_store8.
  repeat case_decide; reflexivity || lia.
Qed.

Lemma load8_store32_other (m : gmap Z Z) a v b :
  (b < a \/ a + 3 < b) -> load8 (store32 m a v) b = load8 m b.
Proof.
  intros Hd. unfold load8. rewrite store32_other by exact Hd. reflexivity.
Qed.

(** Equalities between 32-bit values built from [|], [&] and [~], bit by
    bit. *)
Ltac bits32 :=
  unfold not32;
  apply Z.bits_inj'; intros ?k ?Hk;
  repeat (rewrite ?testbit_u32, ?Z.lor_spec, ?Z.land_spec, ?Z.lnot_spec by lia);
  destruct (Z.ltb_spec k 32); simpl; try reflexivity;
  repeat match goal with
    | |- context [Z.testbit ?x k] => destruct (Z.testbit x k)
    end;
  reflexivity.

(** The state after two writes, or two read-modify-writes, of one register. *)
Ltac same_register :=
  unfold st_bind;
  repeat (rewrite SetReg32_state || rewrite ClearReg32_state);
  cbn [mem with_mem basepri];
  rewrite ?load32_store32, ?store32_store32;
  do 2 f_equal; unfold with_mem; cbn [mem basepri]; f_equal;
  apply store32_eq_u32; bits32.

(** ** Plain writes and reads *)

(** X1.  A 32-bit value written to a register is the value read back. *)
Theorem WriteReg32_ReadReg32_roundtrip (baseAddr offset value : Z) (s : machine) :
  is_u32 value ->
  eval (WriteReg32 baseAddr offset value;; ReadReg32 baseAddr offset) s
  = Some value.
Proof.
  intros Hv. rewrite WriteReg32_ReadReg32, u32_id by exact Hv. reflexivity.
Qed.

Lemma WriteReg32_ReadReg32_roundtrip_witness :
  is_u32 0xDEADBEEF /\
  eval (WriteReg32 SCB_BASE 0x08 0xDEADBEEF;; ReadReg32 SCB_BASE 0x08)
       (Machine ∅ 0) = Some 0xDEADBEEF.
Proof.
  assert (H : is_u32 0xDEADBEEF) by (unfold is_u32; lia).
  split; [exact H |].
  exact (WriteReg32_ReadReg32_roundtrip SCB_BASE 0x08 0xDEADBEEF (Machine ∅ 0) H).
Defined.

(** X2.  Of two writes to one register the second is the one that counts. *)
Theorem WriteReg32_last_write_wins (baseAddr offset v1 v2 : Z) (s : machine) :
  (WriteReg32 baseAddr offset v1;; WriteReg32 baseAddr offset v2) s
  = WriteReg32 baseAddr offset v2 s.
Proof.
  unfold st_bind, WriteReg32. cbn [mem with_mem basepri].
  rewrite store32_store32. reflexivity.
Qed.

(** X3.  The writing primitives change nothing but the addressed register: every
    word that does not overlap it reads as before, and so does BASEPRI. *)
Theorem register_writes_frame (baseAddr offset bits b : Z) (s : machine) :
  (b + 3 < reg_addr baseAddr offset \/ reg_addr baseAddr offset + 3 < b) ->
  let unchanged (c : St machine unit) :=
    exists s', c s = Some (tt, s') /\
               load32 (mem s') b = load32 (mem s) b /\
               basepri s' = basepri s in
  unchanged (WriteReg32 baseAddr offset bits) /\
  unchanged (SetReg32 baseAddr offset bits) /\
  unchanged (ClearReg32 baseAddr offset bits).
Proof.
  intros Hb unchanged. unfold unchanged. split; [| split].
  - eexists. split; [reflexivity |]. cbn [mem with_mem basepri].
    split; [apply load32_store32_other; exact Hb | reflexivity].
  - eexists. split; [apply SetReg32_state |]. cbn [mem with_mem basepri].
    split; [apply load32_store32_other; exact Hb | reflexivity].
  - eexists. split; [apply ClearReg32_state |]. cbn [mem with_mem basepri].
    split; [apply load32_store32_other; exact Hb | reflexivity].
Qed.

Lemma register_writes_frame_witness :
  (NVIC_ISER_BASE + 4 + 3 < reg_addr NVIC_ISER_BASE 8 \/
   reg_addr NVIC_ISER_BASE 8 + 3 < NVIC_ISER_BASE + 4) /\
  exists s', SetReg32 NVIC_ISER_BASE 8 0x10
               (Machine (store32 ∅ (NVIC_ISER_BASE + 4) 0x81) 0x20)
             = Some (tt, s') /\
             load32 (mem s') (NVIC_ISER_BASE + 4)
             = load32 (mem (Machine (store32 ∅ (NVIC_ISER_BASE + 4) 0x81) 0x20))
                      (NVIC_ISER_BASE + 4) /\
             basepri s' = basepri (Machine (store32 ∅ (NVIC_ISER_BASE + 4) 0x81) 0x20).
Proof.
  assert (H : NVIC_ISER_BASE + 4 + 3 < reg_addr NVIC_ISER_BASE 8 \/
              reg_addr NVIC_ISER_BASE 8 + 3 < NVIC_ISER_BASE + 4)
    by (left; vm_compute; reflexivity).
  split; [exact H |].
  exact (proj1 (proj2 (register_writes_frame NVIC_ISER_BASE 8 0x10
                         (NVIC_ISER_BASE + 4) _ H))).
Defined.

(** ** Read-modify-write *)

(** X4.  Setting bits twice, or clearing bits twice, is the same as once. *)
Theorem SetReg32_ClearReg32_idempotent (baseAddr offset bits : Z) (s : machine) :
  (SetReg32 baseAddr offset bits;; SetReg32 baseAddr offset bits) s
    = SetReg32 baseAddr offset bits s /\
  (ClearReg32 baseAddr offset bits;; ClearReg32 baseAddr offset bits) s
    = ClearReg32 baseAddr offset bits s.
Proof. split; same_register. Qed.

(** X5.  Two sets in a row are one set of the union of the masks, and so are two
    clears. *)
Theorem SetReg32_ClearReg32_merge (baseAddr offset m1 m2 : Z) (s : machine) :
  (SetReg32 baseAddr offset m1;; SetReg32 baseAddr offset m2) s
    = SetReg32 baseAddr offset (Z.lor m1 m2) s /\
  (ClearReg32 baseAddr offset m1;; ClearReg32 baseAddr offset m2) s
    = ClearReg32 baseAddr offset (Z.lor m1 m2) s.
Proof. split; same_register. Qed.

(** X6.  The later of a set and a clear of the same bits decides: a clear undoes
    a set before it, and a set undoes a clear before it. *)
Theorem SetReg32_ClearReg32_absorb (baseAddr offset bits : Z) (s : machine) :
  (SetReg32 baseAddr offset bits;; ClearReg32 baseAddr offset bits) s
    = ClearReg32 baseAddr offset bits s /\
  (ClearReg32 baseAddr offset bits;; SetReg32 baseAddr offset bits) s
    = SetReg32 baseAddr offset bits s.
Proof. split; same_register. Qed.

(** X7.  Setting and clearing disjoint masks can be done in either order. *)
Theorem SetReg32_ClearReg32_commute (baseAddr offset setBits clearBits : Z)
    (s : machine) :
  Z.land setBits clearBits = 0 ->
  (SetReg32 baseAddr offset setBits;; ClearReg32 baseAddr offset clearBits) s
  = (ClearReg32 baseAddr offset clearBits;; SetReg32 baseAddr offset setBits) s.
Proof.
  intros Hd.
  assert (Hbit : forall k, Z.testbit setBits k && Z.testbit clearBits k = false).
  { intros k. rewrite <- Z.land_spec, Hd. apply Z.bits_0. }
  unfold st_bind.
  repeat (rewrite SetReg32_state || rewrite ClearReg32_state).
  cbn [mem with_mem basepri].
  rewrite ?load32_store32, ?store32_store32.
  do 2 f_equal. unfold with_mem; cbn [mem basepri]. f_equal.
  apply store32_eq_u32. unfold not32.
  apply Z.bits_inj'. intros k Hk.
  repeat (rewrite ?testbit_u32, ?Z.lor_spec, ?Z.land_spec, ?Z.lnot_spec by lia).
  specialize (Hbit k).
  destruct (Z.ltb_spec k 32); simpl; [| reflexivity].
  destruct (Z.testbit (load32 _ _) k), (Z.testbit setBits k),
    (Z.testbit clearBits k); simpl in *; congruence.
Qed.

Lemma SetReg32_ClearReg32_commute_witness :
  Z.land 0x0F 0xF0 = 0 /\
  (SetReg32 NVIC_ISER_BASE 0 0x0F;; ClearReg32 NVIC_ISER_BASE 0 0xF0) (Machine ∅ 0)
  = (ClearReg32 NVIC_ISER_BASE 0 0xF0;; SetReg32 NVIC_ISER_BASE 0 0x0F) (Machine ∅ 0).
Proof.
  assert (H : Z.land 0x0F 0xF0 = 0) by reflexivity.
  split; [exact H |].
  exact (SetReg32_ClearReg32_commute NVIC_ISER_BASE 0 0x0F 0xF0 (Machine ∅ 0) H).
Defined.

(* ===================================================================== *)
(** * Further properties of interrupt control *)
(* ===================================================================== *)

Lemma IPR_byte_addr irq :
  0 <= irq < Z.of_nat INTERRUPT_COUNT ->
  reg_addr NVIC_IPR_BASE irq = NVIC_IPR_BASE + irq.
Proof.
  intros Hi. unfold reg_addr, INTERRUPT_COUNT in *. apply u32_id.
  unfold is_u32, NVIC_IPR_BASE. lia.
Qed.

Lemma ISER_word_bounds i :
  0 <= i < Z.of_nat INTERRUPT_COUNT -> 0 <= i / 32 <= 3.
Proof.
  unfold INTERRUPT_COUNT. intros Hi. split; [apply Z.div_pos; lia |].
  apply Z.lt_succ_r, Z.div_lt_upper_bound; lia.
Qed.

Lemma EnableNvicInterrupt_run i s :
  0 <= i < Z.of_nat INTERRUPT_COUNT ->
  EnableNvicInterrupt i s
  = Some (tt, with_mem s
                (store32 (mem s) (NVIC_ISER_BASE + 4 * (i / 32))
                   (Z.lor (load32 (mem s) (NVIC_ISER_BASE + 4 * (i / 32)))
                          (2 ^ (i mod 32))))).
Proof.
  intros Hi. rewrite EnableNvicInterrupt_state, SetReg32_state by lia.
  rewrite ISER_word_addr by exact Hi. reflexivity.
Qed.

Lemma SetNvicPriority_run irq pri s :
  0 <= irq < Z.of_nat INTERRUPT_COUNT ->
  SetNvicPriority irq pri s
  = Some (tt, with_mem s (store8 (mem s) (NVIC_IPR_BASE + irq) (Z.shiftl pri 5))).
Proof.
  intros Hi. rewrite SetNvicPriority_state, IPR_byte_addr by exact Hi.
  reflexivity.
Qed.

(** X8.  After [EnableNvicInterrupt i] the enabled interrupts are those that were
    enabled before, and [i]: no other interrupt is switched on or off. *)
Theorem EnableNvicInterrupt_enables_only (i k : Z) (s : machine) :
  0 <= i < Z.of_nat INTERRUPT_COUNT ->
  0 <= k < Z.of_nat INTERRUPT_COUNT ->
  exists s', EnableNvicInterrupt i s = Some (tt, s') /\
             irq_enabled s' k = (k =? i) || irq_enabled s k.
Proof.
  intros Hi Hk. eexists. split; [apply EnableNvicInterrupt_run; exact Hi |].
  pose proof (ISER_word_bounds i Hi) as Bi.
  pose proof (ISER_word_bounds k Hk) as Bk.
  assert (Hmi : 0 <= i mod 32 < 32) by (apply Z.mod_pos_bound; lia).
  assert (Hmk : 0 <= k mod 32 < 32) by (apply Z.mod_pos_bound; lia).
  unfold irq_enabled. cbn [mem with_mem].
  destruct (Z.eq_dec (i / 32) (k / 32)) as [E | N].
  - rewrite <- E, load32_store32, testbit_u32, Z.lor_spec.
    rewrite Z.pow2_bits_eqb by lia.
    destruct (Z.ltb_spec (k mod 32) 32); [| lia]. cbn [andb].
    rewrite orb_comm. f_equal.
    destruct (Z.eqb_spec (i mod 32) (k mod 32)) as [Em | Nm];
      destruct (Z.eqb_spec k i) as [Ek | Nk]; try reflexivity.
    + exfalso. apply Nk.
      rewrite (Z.div_mod k 32), (Z.div_mod i 32) by lia. rewrite E, Em.
      reflexivity.
    + exfalso. apply Nm. rewrite Ek. reflexivity.
  - rewrite load32_store32_other by lia.
    destruct (Z.eqb_spec k i) as [Ek | Nk]; [| reflexivity].
    exfalso. apply N. rewrite Ek. reflexivity.
Qed.

Lemma EnableNvicInterrupt_enables_only_witness :
  0 <= 37 < Z.of_nat INTERRUPT_COUNT /\
  0 <= 5 < Z.of_nat INTERRUPT_COUNT /\
  exists s', EnableNvicInterrupt 37 (Machine (store32 ∅ NVIC_ISER_BASE 0x20) 0)
             = Some (tt, s') /\
             irq_enabled s' 5
             = (5 =? 37) || irq_enabled (Machine (store32 ∅ NVIC_ISER_BASE 0x20) 0) 5.
Proof.
  assert (H1 : 0 <= 37 < Z.of_nat INTERRUPT_COUNT) by (unfold INTERRUPT_COUNT; lia).
  assert (H2 : 0 <= 5 < Z.of_nat INTERRUPT_COUNT) by (unfold INTERRUPT_COUNT; lia).
  split; [exact H1 |]. split; [exact H2 |].
  exact (EnableNvicInterrupt_enables_only 37 5 _ H1 H2).
Defined.

(** X9.  Interrupts can be enabled in any order. *)
Theorem EnableNvicInterrupt_commute (i j : Z) (s : machine) :
  0 <= i < Z.of_nat INTERRUPT_COUNT ->
  0 <= j < Z.of_nat INTERRUPT_COUNT ->
  (EnableNvicInterrupt i;; EnableNvicInterrupt j) s
  = (EnableNvicInterrupt j;; EnableNvicInterrupt i) s.
Proof.
  intros Hi Hj.
  pose proof (ISER_word_bounds i Hi) as Bi.
  pose proof (ISER_word_bounds j Hj) as Bj.
  unfold st_bind.
  rewrite (EnableNvicInterrupt_run i s Hi), (EnableNvicInterrupt_run j s Hj).
  rewrite (EnableNvicInterrupt_run j _ Hj), (EnableNvicInterrupt_run i _ Hi).
  cbn [mem with_mem basepri]. do 2 f_equal. unfold with_mem. cbn [mem basepri].
  f_equal.
  destruct (Z.eq_dec (i / 32) (j / 32)) as [E | N].
  - rewrite <- E, !load32_store32, !store32_store32.
    apply store32_eq_u32. bits32.
  - rewrite !load32_store32_other by lia.
    apply store32_commute. lia.
Qed.

Lemma EnableNvicInterrupt_commute_witness :
  0 <= 3 < Z.of_nat INTERRUPT_COUNT /\
  0 <= 70 < Z.of_nat INTERRUPT_COUNT /\
  (EnableNvicInterrupt 3;; EnableNvicInterrupt 70) (Machine ∅ 0)
  = (EnableNvicInterrupt 70;; EnableNvicInterrupt 3) (Machine ∅ 0).
Proof.
  assert (H1 : 0 <= 3 < Z.of_nat INTERRUPT_COUNT) by (unfold INTERRUPT_COUNT; lia).
  assert (H2 : 0 <= 70 < Z.of_nat INTERRUPT_COUNT) by (unfold INTERRUPT_COUNT; lia).
  split; [exact H1 |]. split; [exact H2 |].
  exact (EnableNvicInterrupt_commute 3 70 (Machine ∅ 0) H1 H2).
Defined.

(** X10.  [EnableNvicInterrupt] has no defined behaviour exactly when
    [irqNum % 32] is negative, which makes the shift count negative: that is,
    for a negative [irqNum] that is not a multiple of 32. *)
Theorem EnableNvicInterrupt_undefined_iff (irqNum : Z) (s : machine) :
  EnableNvicInterrupt irqNum s = None <-> (irqNum < 0 /\ irqNum mod 32 <> 0).
Proof.
  unfold EnableNvicInterrupt, st_bind, shl32.
  assert (Hrem : Z.rem irqNum 32 < 32 /\
                 (Z.rem irqNum 32 < 0 <-> irqNum < 0 /\ irqNum mod 32 <> 0)).
  { pose proof (Z.rem_bound_abs irqNum 32) as Hb.
    pose proof (Z.quot_rem irqNum 32) as Hq.
    pose proof (Z.rem_sign_nz irqNum 32) as Hs.
    pose proof (Z.rem_opp_l irqNum 32) as Ho.
    destruct (Z.lt_ge_cases irqNum 0) as [Hneg | Hpos].
    - assert (Hr : Z.rem irqNum 32 = - ((- irqNum) mod 32)).
      { rewrite <- (Z.opp_involutive irqNum) at 1.
        rewrite Z.rem_opp_l, Z.rem_mod_nonneg by lia. reflexivity. }
      rewrite Hr.
      pose proof (Z.mod_pos_bound (- irqNum) 32).
      assert (Hz : (- irqNum) mod 32 = 0 <-> irqNum mod 32 = 0).
      { split; intros Hm.
        - apply Z.mod_divide in Hm; [| lia]. apply Z.mod_divide; [lia |].
          apply Z.divide_opp_r in Hm. rewrite Z.opp_involutive in Hm. exact Hm.
        - apply Z.mod_divide in Hm; [| lia]. apply Z.mod_divide; [lia |].
          apply Z.divide_opp_r. exact Hm. }
      split; [lia |]. split; intros H'; [split; [lia |] | lia].
      intros Hm. apply Hz in Hm. lia.
    - rewrite Z.rem_mod_nonneg by lia.
      pose proof (Z.mod_pos_bound irqNum 32). split; [lia |]. split; lia. }
  destruct Hrem as [Hlt Hiff].
  destruct (Z.leb_spec 0 (Z.rem irqNum 32)) as [Hge | Hneg];
    destruct (Z.ltb_spec (Z.rem irqNum 32) 32); try lia; cbn [andb].
  - unfold st_ret. rewrite SetReg32_state. split; [discriminate |].
    intros H'. apply Hiff in H'. lia.
  - split; [intros _; apply Hiff; exact Hneg | reflexivity].
Qed.

(** ** Priorities *)

Lemma store8_eq_u8 (m : gmap Z Z) a v w :
  u8 v = u8 w -> store8 m a v = store8 m a w.
Proof. unfold store8. intros ->. reflexivity. Qed.

Lemma u8_shiftl5_mod8 pri : u8 (Z.shiftl pri 5) = u8 (Z.shiftl (pri mod 8) 5).
Proof.
  unfold u8. rewrite !Z.shiftl_mul_pow2 by lia.
  change (2 ^ 8) with (8 * 2 ^ 5).
  rewrite !Z.mul_mod_distr_r by lia. rewrite Z.mod_mod by lia. reflexivity.
Qed.

(** X11.  Of two priorities set for one interrupt the second is the one that
    counts, whatever the interrupt number. *)
Theorem SetNvicPriority_last_wins (irqNum p1 p2 : Z) (s : machine) :
  (SetNvicPriority irqNum p1;; SetNvicPriority irqNum p2) s
  = SetNvicPriority irqNum p2 s.
Proof.
  unfold st_bind. rewrite !SetNvicPriority_state. cbn [mem with_mem basepri].
  rewrite store8_store8. reflexivity.
Qed.

(** X12.  Only the low three bits of the priority reach the hardware: two
    priorities that agree modulo 8 leave the machine in the same state. *)
Theorem SetNvicPriority_mod_8 (irqNum pri : Z) (s : machine) :
  SetNvicPriority irqNum pri s = SetNvicPriority irqNum (pri mod 8) s.
Proof.
  rewrite !SetNvicPriority_state. do 3 f_equal.
  apply store8_eq_u8, u8_shiftl5_mod8.
Qed.

(** X13.  Setting the priority of one interrupt changes the priority byte of that
    interrupt only, and enables or disables nothing. *)
Theorem SetNvicPriority_touches_one_byte (irq other pri : Z) (s : machine) :
  0 <= irq < Z.of_nat INTERRUPT_COUNT ->
  0 <= other < Z.of_nat INTERRUPT_COUNT ->
  exists s', SetNvicPriority irq pri s = Some (tt, s') /\
             irq_priority_byte s' irq = Z.shiftl (pri mod 8) 5 /\
             (other <> irq -> irq_priority_byte s' other = irq_priority_byte s other) /\
             irq_enabled s' other = irq_enabled s other /\
             basepri s' = basepri s.
Proof.
  intros Hi Ho. eexists. split; [apply SetNvicPriority_run; exact Hi |].
  pose proof (ISER_word_bounds other Ho) as Bo.
  unfold INTERRUPT_COUNT in *.
  unfold irq_priority_byte, irq_enabled. cbn [mem with_mem basepri].
  split; [| split; [| split; [| reflexivity]]].
  - rewrite load8_store8. case_decide; [| congruence].
    rewrite u8_shiftl5_mod8. apply u8_id. unfold is_u8.
    pose proof (Z.mod_pos_bound pri 8).
    rewrite Z.shiftl_mul_pow2 by lia. lia.
  - intros Hne. rewrite load8_store8. case_decide; [lia | reflexivity].
  - rewrite load32_store8_other; [reflexivity |].
    unfold NVIC_IPR_BASE, NVIC_ISER_BASE. lia.
Qed.

Lemma SetNvicPriority_touches_one_byte_witness :
  0 <= 17 < Z.of_nat INTERRUPT_COUNT /\
  0 <= 18 < Z.of_nat INTERRUPT_COUNT /\
  exists s', SetNvicPriority 17 6 (Machine ∅ 0) = Some (tt, s') /\
             irq_priority_byte s' 17 = Z.shiftl (6 mod 8) 5 /\
             (18 <> 17 -> irq_priority_byte s' 18 = irq_priority_byte (Machine ∅ 0) 18) /\
             irq_enabled s' 18 = irq_enabled (Machine ∅ 0) 18 /\
             basepri s' = basepri (Machine ∅ 0).
Proof.
  assert (H1 : 0 <= 17 < Z.of_nat INTERRUPT_COUNT) by (unfold INTERRUPT_COUNT; lia).
  assert (H2 : 0 <= 18 < Z.of_nat INTERRUPT_COUNT) by (unfold INTERRUPT_COUNT; lia).
  split; [exact H1 |]. split; [exact H2 |].
  exact (SetNvicPriority_touches_one_byte 17 18 6 (Machine ∅ 0) H1 H2).
Defined.

(** X14.  The priority and the enable bit of interrupts live in separate banks:
    setting one and enabling another can be done in either order. *)
Theorem SetNvicPriority_EnableNvicInterrupt_commute (irq enabled pri : Z)
    (s : machine) :
  0 <= irq < Z.of_nat INTERRUPT_COUNT ->
  0 <= enabled < Z.of_nat INTERRUPT_COUNT ->
  (SetNvicPriority irq pri;; EnableNvicInterrupt enabled) s
  = (EnableNvicInterrupt enabled;; SetNvicPriority irq pri) s.
Proof.
  intros Hi He. pose proof (ISER_word_bounds enabled He) as Be.
  assert (Hd : NVIC_IPR_BASE + irq < NVIC_ISER_BASE + 4 * (enabled / 32) \/
               NVIC_ISER_BASE + 4 * (enabled / 32) + 3 < NVIC_IPR_BASE + irq).
  { unfold INTERRUPT_COUNT, NVIC_IPR_BASE, NVIC_ISER_BASE in *. lia. }
  unfold st_bind.
  rewrite (SetNvicPriority_run irq pri s Hi), (EnableNvicInterrupt_run enabled s He).
  rewrite (EnableNvicInterrupt_run enabled _ He), (SetNvicPriority_run irq pri _ Hi).
  cbn [mem with_mem basepri]. do 2 f_equal. unfold with_mem. cbn [mem basepri].
  f_equal. rewrite load32_store8_other by exact Hd.
  apply store8_store32_commute. exact Hd.
Qed.

Lemma SetNvicPriority_EnableNvicInterrupt_commute_witness :
  0 <= 17 < Z.of_nat INTERRUPT_COUNT /\
  0 <= 17 < Z.of_nat INTERRUPT_COUNT /\
  (SetNvicPriority 17 2;; EnableNvicInterrupt 17) (Machine ∅ 0)
  = (EnableNvicInterrupt 17;; SetNvicPriority 17 2) (Machine ∅ 0).
Proof.
  assert (H : 0 <= 17 < Z.of_nat INTERRUPT_COUNT) by (unfold INTERRUPT_COUNT; lia).
  split; [exact H |]. split; [exact H |].
  exact (SetNvicPriority_EnableNvicInterrupt_commute 17 17 2 (Machine ∅ 0) H H).
Defined.

(** A byte stored inside a word shows in lane [k] of the word. *)
Lemma testbit_load32_store8 (m : gmap Z Z) a k v j :
  0 <= k <= 3 -> 0 <= j ->
  Z.testbit (load32 (store8 m (a + k) v) a) j
  = if (8 * k <=? j) && (j <? 8 * k + 8) then Z.testbit v (j - 8 * k)
    else Z.testbit (load32 m a) j.
Proof.
  intros Hk Hj.
  assert (Hc : k = 0 \/ k = 1 \/ k = 2 \/ k = 3) by lia.
  unfold load32. rewrite !load8_store8.
  destruct Hc as [-> | [-> | [-> | ->]]];
    repeat case_decide; try lia; unfold load8;
    rewrite !testbit_le_bytes by lia;
    repeat (match goal with
            | |- context [?x <=? ?y] => destruct (Z.leb_spec x y)
            | |- context [?x <? ?y] => destruct (Z.ltb_spec x y)
            end; try lia);
    cbn [andb]; try reflexivity; f_equal; lia.
Qed.

(** X15.  Read as 32-bit words, the priority bank holds four interrupts per word:
    [SetNvicPriority irq] replaces byte [irq % 4] of word [irq / 4], putting
    the priority in the top three bits of that byte, and keeps the other
    three bytes. *)
Theorem SetNvicPriority_word_lane (irq pri old bit : Z) (s : machine) :
  0 <= irq < Z.of_nat INTERRUPT_COUNT ->
  0 <= bit < 32 ->
  eval (ReadReg32 NVIC_IPR_BASE (4 * (irq / 4))) s = Some old ->
  exists new,
    eval (SetNvicPriority irq pri;; ReadReg32 NVIC_IPR_BASE (4 * (irq / 4))) s
      = Some new /\
    Z.testbit new bit
    = if (8 * (irq mod 4) <=? bit) && (bit <? 8 * (irq mod 4) + 8)
      then Z.testbit (Z.shiftl (pri mod 8) 5) (bit - 8 * (irq mod 4))
      else Z.testbit old bit.
Proof.
  intros Hi Hbit Hold.
  assert (Hq : 0 <= irq / 4 <= 24).
  { unfold INTERRUPT_COUNT in Hi. split; [apply Z.div_pos; lia |].
    apply Z.lt_succ_r, Z.div_lt_upper_bound; lia. }
  assert (Hm : 0 <= irq mod 4 < 4) by (apply Z.mod_pos_bound; lia).
  assert (Ha : reg_addr NVIC_IPR_BASE (4 * (irq / 4)) = NVIC_IPR_BASE + 4 * (irq / 4)).
  { unfold reg_addr. apply u32_id. unfold is_u32, NVIC_IPR_BASE. lia. }
  unfold eval, ReadReg32 in Hold. rewrite Ha in Hold. injection Hold as Hold.
  eexists. split.
  { unfold eval, st_bind. rewrite (SetNvicPriority_run irq pri s Hi).
    unfold ReadReg32. rewrite Ha. cbn [mem with_mem]. reflexivity. }
  replace (NVIC_IPR_BASE + irq) with (NVIC_IPR_BASE + 4 * (irq / 4) + irq mod 4)
    by (rewrite (Z.div_mod irq 4) at 3 by lia; lia).
  rewrite testbit_load32_store8 by lia. rewrite Hold.
  destruct ((8 * (irq mod 4) <=? bit) && (bit <? 8 * (irq mod 4) + 8)) eqn:E;
    [| reflexivity].
  apply andb_prop in E. destruct E as [E1 E2].
  apply Z.leb_le in E1. apply Z.ltb_lt in E2.
  assert (Hu : Z.testbit (u8 (Z.shiftl pri 5)) (bit - 8 * (irq mod 4))
               = Z.testbit (Z.shiftl pri 5) (bit - 8 * (irq mod 4))).
  { rewrite testbit_u8. destruct (Z.ltb_spec (bit - 8 * (irq mod 4)) 8); [reflexivity | lia]. }
  rewrite <- Hu, u8_shiftl5_mod8, testbit_u8.
  destruct (Z.ltb_spec (bit - 8 * (irq mod 4)) 8); [reflexivity | lia].
Qed.

Lemma SetNvicPriority_word_lane_witness :
  0 <= 18 < Z.of_nat INTERRUPT_COUNT /\
  0 <= 23 < 32 /\
  eval (ReadReg32 NVIC_IPR_BASE (4 * (18 / 4))) (Machine ∅ 0) = Some 0 /\
  exists new,
    eval (SetNvicPriority 18 7;; ReadReg32 NVIC_IPR_BASE (4 * (18 / 4))) (Machine ∅ 0)
      = Some new /\
    Z.testbit new 23
    = if (8 * (18 mod 4) <=? 23) && (23 <? 8 * (18 mod 4) + 8)
      then Z.testbit (Z.shiftl (7 mod 8) 5) (23 - 8 * (18 mod 4))
      else Z.testbit 0 23.
Proof.
  assert (H1 : 0 <= 18 < Z.of_nat INTERRUPT_COUNT) by (unfold INTERRUPT_COUNT; lia).
  assert (H2 : 0 <= 23 < 32) by lia.
  assert (H3 : eval (ReadReg32 NVIC_IPR_BASE (4 * (18 / 4))) (Machine ∅ 0) = Some 0)
    by (vm_compute; reflexivity).
  split; [exact H1 |]. split; [exact H2 |]. split; [exact H3 |].
  exact (SetNvicPriority_word_lane 18 7 0 23 (Machine ∅ 0) H1 H2 H3).
Defined.

Example SetNvicPriority_word_example :
  eval (SetNvicPriority 18 7;; ReadReg32 NVIC_IPR_BASE 16) (Machine ∅ 0)
  = Some 0x00E00000.
Proof. vm_compute. reflexivity. Qed.

(* ===================================================================== *)
(** * Further properties of critical sections *)
(* ===================================================================== *)

(** X16.  None of the register functions of the header reads or writes BASEPRI. *)
Theorem register_functions_ignore_basepri (baseAddr offset value irqNum : Z) :
  ignores_basepri (WriteReg8 baseAddr offset value) /\
  ignores_basepri (WriteReg32 baseAddr offset value) /\
  ignores_basepri (ReadReg32 baseAddr offset) /\
  ignores_basepri (SetReg32 baseAddr offset value) /\
  ignores_basepri (ClearReg32 baseAddr offset value) /\
  ignores_basepri (SetNvicPriority irqNum value) /\
  ignores_basepri (EnableNvicInterrupt irqNum).
Proof.
  repeat split; intros s b; try reflexivity.
  unfold EnableNvicInterrupt, st_bind, shl32.
  destruct ((0 <=? Z.rem irqNum 32) && (Z.rem irqNum 32 <? 32)); reflexivity.
Qed.

(** X17.  A computation that leaves BASEPRI alone has the same result and the same
    effect inside [BlockIrqs] ... [RestoreIrqs] as outside, and the mask is
    back to its value afterwards. *)
Theorem critical_section_transparent {A : Type} (c : St machine A) (s : machine) :
  ignores_basepri c ->
  is_u32 (basepri s) ->
  (token ← BlockIrqs; x ← c; RestoreIrqs token;; st_ret x) s = c s.
Proof.
  intros Hc Hb. unfold st_bind at 1. rewrite BlockIrqs_state.
  unfold st_bind at 1. rewrite Hc.
  pose proof (Hc s (basepri s)) as Hsame. rewrite with_basepri_same in Hsame.
  destruct (c s) as [[x s'] |]; [| reflexivity].
  injection Hsame as Hs'.
  unfold st_bind, RestoreIrqs, msr_BASEPRI, st_ret.
  rewrite with_basepri_twice, !u32_id by (assumption || apply u32_range).
  rewrite <- Hs'. reflexivity.
Qed.

Lemma critical_section_transparent_witness :
  ignores_basepri (SetReg32 NVIC_ISER_BASE 0 0x04) /\
  is_u32 (basepri (Machine ∅ 0xE0)) /\
  (token ← BlockIrqs; x ← SetReg32 NVIC_ISER_BASE 0 0x04;
   RestoreIrqs token;; st_ret x) (Machine ∅ 0xE0)
  = SetReg32 NVIC_ISER_BASE 0 0x04 (Machine ∅ 0xE0).
Proof.
  assert (H1 : ignores_basepri (SetReg32 NVIC_ISER_BASE 0 0x04))
    by (intros s b; reflexivity).
  assert (H2 : is_u32 (basepri (Machine ∅ 0xE0))) by (unfold is_u32; simpl; lia).
  split; [exact H1 |]. split; [exact H2 |].
  exact (critical_section_transparent _ (Machine ∅ 0xE0) H1 H2).
Defined.

(** X18.  Restoring two nested tokens in the wrong order does not restore the
    mask: it is left at the blocked level 1. *)
Theorem RestoreIrqs_out_of_order (s : machine) :
  (outer ← BlockIrqs; inner ← BlockIrqs;
   RestoreIrqs outer;; RestoreIrqs inner) s
  = Some (tt, with_basepri s 1).
Proof.
  unfold st_bind. rewrite BlockIrqs_state. rewrite BlockIrqs_state.
  unfold RestoreIrqs, msr_BASEPRI. rewrite !with_basepri_twice.
  reflexivity.
Qed.

(* ===================================================================== *)
(** * Further properties of the power-of-two ceiling *)
(* ===================================================================== *)








(** X21.  The result is never as much as twice the argument. *)
Theorem POW2_CEIL_tight (x : Z) :
  1 <= x <= 2 ^ 63 -> x <= POW2_CEIL x < 2 * x.
Proof.
  intros Hx. destruct (POW2_CEIL_least x Hx) as (_ & Hge & _).
  split; [exact Hge |].
  rewrite POW2_CEIL_log2_up by exact Hx.
  destruct (Z.eq_dec x 1) as [-> | Hne]; [reflexivity |].
  assert (Hs : 2 ^ Z.pred (Z.log2_up x) < x) by (apply Z.log2_up_spec; lia).
  assert (Hpos : 0 < Z.log2_up x) by (apply Z.log2_up_pos; lia).
  replace (Z.log2_up x) with (Z.succ (Z.pred (Z.log2_up x))) by lia.
  rewrite Z.pow_succ_r by lia. lia.
Qed.

Lemma POW2_CEIL_tight_witness :
  1 <= 464 <= 2 ^ 63 /\ 464 <= POW2_CEIL 464 < 2 * 464.
Proof.
  assert (H : 1 <= 464 <= 2 ^ 63) by lia.
  split; [exact H |]. exact (POW2_CEIL_tight 464 H).
Defined.





(* ===================================================================== *)
(** * Further properties of the exception vector table *)
(* ===================================================================== *)

Lemma EXCEPTION_TABLE_ALIGNMENT_unfold :
  EXCEPTION_TABLE_ALIGNMENT = table_alignment_for EXCEPTION_TABLE_EXPECTED_SIZE.
Proof. reflexivity. Qed.

(** X24.  The requirement quoted in the source (ARM DDI0403E.d SB1.5.3): for a
    table of any size from 1 to [2^63] bytes the alignment expression is a
    power of two, at least 128 and at least the size of the table, and the
    least such; [EXCEPTION_TABLE_ALIGNMENT] is that expression at the
    expected size. *)
Theorem table_alignment_meets_requirement (size : Z) :
  1 <= size <= 2 ^ 63 ->
  is_pow2 (table_alignment_for size) /\
  128 <= table_alignment_for size /\
  size <= table_alignment_for size /\
  (forall q, is_pow2 q -> 128 <= q -> size <= q -> table_alignment_for size <= q) /\
  EXCEPTION_TABLE_ALIGNMENT = table_alignment_for EXCEPTION_TABLE_EXPECTED_SIZE.
Proof.
  intros Hs. destruct (POW2_CEIL_least size Hs) as (Hp & Hge & Hmin).
  unfold table_alignment_for.
  destruct (Z.ltb_spec (POW2_CEIL size) 128) as [Hlt | Hle].
  - split; [exists 7; split; [lia | reflexivity] |].
    split; [lia |]. split; [lia |]. split; [intros; lia | reflexivity].
  - split; [exact Hp |]. split; [exact Hle |]. split; [exact Hge |].
    split; [| apply EXCEPTION_TABLE_ALIGNMENT_unfold].
    intros q Hq _ Hsq. apply Hmin; assumption.
Qed.

Lemma table_alignment_meets_requirement_witness :
  1 <= 64 <= 2 ^ 63 /\
  is_pow2 (table_alignment_for 64) /\
  128 <= table_alignment_for 64 /\
  64 <= table_alignment_for 64 /\
  (forall q, is_pow2 q -> 128 <= q -> 64 <= q -> table_alignment_for 64 <= q) /\
  EXCEPTION_TABLE_ALIGNMENT = table_alignment_for EXCEPTION_TABLE_EXPECTED_SIZE.
Proof.
  assert (H : 1 <= 64 <= 2 ^ 63) by lia.
  split; [exact H |]. exact (table_alignment_meets_requirement 64 H).
Defined.



(** X26.  When the three symbols have non-zero addresses, the zero slots of the
    table are exactly the reserved slots 7-10 and 13, and the table has the
    slots 0..115 and no others. *)
Theorem ExceptionVectorTable_zero_slots (addr_of : symbol -> Z) (i : nat) :
  (forall sym, addr_of sym <> 0) ->
  (ExceptionVectorTable addr_of !! i = Some 0 <-> In i [7; 8; 9; 10; 13]%nat) /\
  (ExceptionVectorTable addr_of !! i = None <-> (116 <= i)%nat).
Proof.
  intros Hnz.
  set (t := ExceptionVectorTable addr_of). cbv in t. subst t.
  do 116 (destruct i as [| i];
    [ split;
      [ split;
        [ intros H; first [ injection H as H; exfalso; exact (Hnz _ H)
                          | simpl; tauto ]
        | intros H; simpl in H; first [ reflexivity | exfalso; lia ] ]
      | split; [ discriminate | lia ] ]
    | ]).
  split.
  - split; [discriminate |].
    intros H; simpl in H; exfalso; lia.
  - split; [intros _; lia | reflexivity].
Qed.

Lemma ExceptionVectorTable_zero_slots_witness :
  let addr_of := fun s => match s with
                          | StackTop => 0x00200000
                          | DefaultExceptionHandler => 0x00100201
                          | RTCoreMain => 0x00100205
                          end in
  (forall sym, addr_of sym <> 0) /\
  (ExceptionVectorTable addr_of !! 9%nat = Some 0 <-> In 9%nat [7; 8; 9; 10; 13]%nat) /\
  (ExceptionVectorTable addr_of !! 9%nat = None <-> (116 <= 9)%nat).
Proof.
  intros addr_of.
  assert (H : forall sym, addr_of sym <> 0) by (intros []; discriminate).
  split; [exact H |]. exact (ExceptionVectorTable_zero_slots addr_of 9%nat H).
Defined.

(* ===================================================================== *)
(** * Further properties of the millivolt conversion and the loop *)
(* ===================================================================== *)

(** X28.  The conversion is exact integer division as long as [value * 2500] fits
    in 32 bits, that is up to the sample 1717986; from the next sample on
    the product wraps around and the result is too small. *)
Theorem millivolts_overflow_threshold (value : Z) :
  is_u32 value ->
  (millivolts value = value * 2500 / 0xFFF <-> value <= 1717986) /\
  millivolts value <= value * 2500 / 0xFFF.
Proof.
  unfold is_u32, millivolts, u32. intros Hv.
  destruct (Z.le_gt_cases value 1717986) as [Hle | Hgt].
  - rewrite Z.mod_small by lia. split; [| lia]. split; [intros _; exact Hle | reflexivity].
  - assert (Hlt : (value * 2500) mod 2 ^ 32 / 0xFFF < value * 2500 / 0xFFF).
    { change (2 ^ 32) with 4294967296. Z.div_mod_to_equations. lia. }
    split; [| lia]. split; [intros H; lia | intros H; lia].
Qed.

Lemma millivolts_overflow_threshold_witness :
  is_u32 1717987 /\
  (millivolts 1717987 = 1717987 * 2500 / 0xFFF <-> 1717987 <= 1717986) /\
  millivolts 1717987 <= 1717987 * 2500 / 0xFFF.
Proof.
  assert (H : is_u32 1717987) by (unfold is_u32; lia).
  split; [exact H |]. exact (millivolts_overflow_threshold 1717987 H).
Defined.

Example millivolts_wraps : millivolts 1717987 = 0.
Proof. reflexivity. Qed.

(** X29.  Below the overflow threshold a larger sample never reads as a smaller
    voltage, and the result is the true value rounded down: it is short by
    less than one millivolt. *)
Theorem millivolts_monotone_truncating (v w : Z) :
  0 <= v <= w -> w <= 1717986 ->
  millivolts v <= millivolts w /\
  millivolts v * 0xFFF <= v * 2500 < (millivolts v + 1) * 0xFFF.
Proof.
  unfold millivolts, u32. intros Hv Hw.
  rewrite !Z.mod_small by lia. split.
  - apply Z.div_le_mono; lia.
  - Z.div_mod_to_equations. lia.
Qed.

Lemma millivolts_monotone_truncating_witness :
  0 <= 2047 <= 2048 /\ 2048 <= 1717986 /\
  millivolts 2047 <= millivolts 2048 /\
  millivolts 2047 * 0xFFF <= 2047 * 2500 < (millivolts 2047 + 1) * 0xFFF.
Proof.
  assert (H1 : 0 <= 2047 <= 2048) by lia. assert (H2 : 2048 <= 1717986) by lia.
  split; [exact H1 |]. split; [exact H2 |].
  exact (millivolts_monotone_truncating 2047 2048 H1 H2).
Defined.

(** On 12-bit samples only the full-scale sample reads 2500 mV, and the
    samples 0 and 1 both read 0 mV. *)
Theorem millivolts_endpoints (value : Z) :
  0 <= value <= 0xFFF ->
  (millivolts value = 2500 <-> value = 0xFFF) /\
  (millivolts value = 0 <-> value <= 1).
Proof.
  unfold millivolts, u32. intros Hv. rewrite Z.mod_small by lia.
  split; split; intros H; Z.div_mod_to_equations; lia.
Qed.

Lemma millivolts_endpoints_witness :
  0 <= 1 <= 0xFFF /\
  (millivolts 1 = 2500 <-> 1 = 0xFFF) /\ (millivolts 1 = 0 <-> 1 <= 1).
Proof.
  assert (H : 0 <= 1 <= 0xFFF) by lia.
  split; [exact H |]. exact (millivolts_endpoints 1 H).
Defined.

Lemma string_length_app (a b : string) :
  String.length (a ++ b)%string = (String.length a + String.length b)%nat.
Proof.
  induction a as [| x a IH]; [reflexivity |].
  change (S (String.length (a ++ b)%string) = S (String.length a + String.length b)).
  rewrite IH. reflexivity.
Qed.

Lemma RTCoreMain_iteration_length adc0 c :
  0 <= adc0 <= 0xFFF ->
  exists c', RTCoreMain_iteration adc0 c = Some (tt, c') /\
             String.length (uart_tx c') = (String.length (uart_tx c) + 7)%nat /\
             waited_us c' = waited_us c + 1000000.
Proof.
  intros Hraw. eexists. split; [apply RTCoreMain_iteration_state |].
  cbn [uart_tx waited_us]. split; [| reflexivity].
  assert (Hu : u32 adc0 = adc0) by (apply u32_id; unfold is_u32; lia).
  assert (Hr : 0 <= millivolts adc0 <= 2500).
  { unfold millivolts. rewrite u32_id by (unfold is_u32; lia).
    split; [apply Z.div_pos; lia |].
    apply Z.lt_succ_r, Z.div_lt_upper_bound; lia. }
  rewrite Hu, string_length_app, (sent_for_fixed_point _ Hr). reflexivity.
Qed.

(** X30.  With the serial and timer collaborators as the spec describes them: for
    12-bit samples every pass of the loop is defined, sends exactly 7
    characters and waits exactly one second, so after [n] passes the
    transcript is [7 * n] characters longer and [n] seconds have been
    waited. *)
Theorem RTCoreMain_loop_cadence (samples : list Z) (c : console) :
  Forall (fun adc0 => 0 <= adc0 <= 0xFFF) samples ->
  exists c', RTCoreMain_loop samples c = Some (tt, c') /\
             String.length (uart_tx c')
             = (String.length (uart_tx c) + 7 * length samples)%nat /\
             waited_us c' = waited_us c + 1000000 * Z.of_nat (length samples).
Proof.
  intros Hall. revert c.
  induction Hall as [| adc0 rest Hraw Hrest IH]; intros c.
  - exists c. split; [reflexivity |]. cbn [length]. split; lia.
  - destruct (RTCoreMain_iteration_length adc0 c Hraw) as (c1 & Hrun & Hlen & Hwait).
    destruct (IH c1) as (c' & Hrun' & Hlen' & Hwait').
    exists c'. split.
    + cbn [RTCoreMain_loop]. unfold st_bind. rewrite Hrun. exact Hrun'.
    + cbn [length]. split; lia.
Qed.

Lemma RTCoreMain_loop_cadence_witness :
  Forall (fun adc0 => 0 <= adc0 <= 0xFFF) [0xFFF; 0; 2048] /\
  exists c', RTCoreMain_loop [0xFFF; 0; 2048] (Console EmptyString 0) = Some (tt, c') /\
             String.length (uart_tx c')
             = (String.length (uart_tx (Console EmptyString 0))
                + 7 * length [0xFFF; 0; 2048])%nat /\
             waited_us c'
             = waited_us (Console EmptyString 0)
               + 1000000 * Z.of_nat (length [0xFFF; 0; 2048]).
Proof.
  assert (H : Forall (fun adc0 => 0 <= adc0 <= 0xFFF) [0xFFF; 0; 2048])
    by (repeat constructor; lia).
  split; [exact H |].
  exact (RTCoreMain_loop_cadence [0xFFF; 0; 2048] (Console EmptyString 0) H).
Defined.

(** X27.  Installing the vector table: when the table sits at a 32-bit address
    that respects the alignment of its type, the vector-table-offset
    register reads back that address, its low 9 bits are zero, and no
    interrupt is enabled or disabled by the write. *)
Theorem RTCoreMain_install_vector_table_VTOR (table_addr irq : Z) (s : machine) :
  is_u32 table_addr ->
  table_addr mod alignof_EXCEPTION_VECTOR_TABLE = 0 ->
  0 <= irq < Z.of_nat INTERRUPT_COUNT ->
  exists s',
    RTCoreMain_install_vector_table table_addr s = Some (tt, s') /\
    eval (ReadReg32 SCB_BASE 0x08) s' = Some table_addr /\
    Z.land table_addr 0x1FF = 0 /\
    irq_enabled s' irq = irq_enabled s irq /\
    irq_priority_byte s' irq = irq_priority_byte s irq.
Proof.
  intros Hu Hal Hirq. eexists. split; [reflexivity |].
  pose proof (ISER_word_bounds irq Hirq) as Bq. unfold INTERRUPT_COUNT in Hirq.
  assert (Ha : reg_addr SCB_BASE 0x08 = 0xE000ED08) by reflexivity.
  split; [| split; [| split]].
  - unfold eval, ReadReg32. cbn [mem with_mem]. rewrite load32_store32.
    rewrite u32_id by exact Hu. reflexivity.
  - change 0x1FF with (Z.ones 9). rewrite Z.land_ones by lia. exact Hal.
  - unfold irq_enabled. cbn [mem with_mem]. rewrite Ha.
    rewrite load32_store32_other; [reflexivity |]. unfold NVIC_ISER_BASE. lia.
  - unfold irq_priority_byte. cbn [mem with_mem]. rewrite Ha.
    rewrite load8_store32_other; [reflexivity |]. unfold NVIC_IPR_BASE. lia.
Qed.

Lemma RTCoreMain_install_vector_table_VTOR_witness :
  is_u32 0x00100200 /\
  0x00100200 mod alignof_EXCEPTION_VECTOR_TABLE = 0 /\
  0 <= 42 < Z.of_nat INTERRUPT_COUNT /\
  exists s',
    RTCoreMain_install_vector_table 0x00100200 (Machine ∅ 0) = Some (tt, s') /\
    eval (ReadReg32 SCB_BASE 0x08) s' = Some 0x00100200 /\
    Z.land 0x00100200 0x1FF = 0 /\
    irq_enabled s' 42 = irq_enabled (Machine ∅ 0) 42 /\
    irq_priority_byte s' 42 = irq_priority_byte (Machine ∅ 0) 42.
Proof.
  assert (H1 : is_u32 0x00100200) by (unfold is_u32; lia).
  assert (H2 : 0x00100200 mod alignof_EXCEPTION_VECTOR_TABLE = 0) by reflexivity.
  assert (H3 : 0 <= 42 < Z.of_nat INTERRUPT_COUNT) by (unfold INTERRUPT_COUNT; lia).
  split; [exact H1 |]. split; [exact H2 |]. split; [exact H3 |].
  exact (RTCoreMain_install_vector_table_VTOR 0x00100200 42 (Machine ∅ 0) H1 H2 H3).
Defined.
